(** * giefstat.time_series.util: peak parsing and ordinal symbolisation

    A shallow embedding of [src/giefstat/time_series/util.py]:
    [parse_peaks], [_build_embed_series] and [continuously_symbolize].

    Data is kept as the Python code has it:
    - Python [int]s ([m], [tau_x], indices, symbols) are [Z]. numpy holds
      index arrays in 64-bit integers; the embedding is that of the code as
      long as the indices and the products [i * tau] fit them, which the
      statements that let a delay or an index be arbitrary say as a
      hypothesis ([fits_int64]);
    - [float64] values are Rocq's primitive binary64 floats, so that [nan],
      rounding and underflow are those of the interpreter;
    - a one-dimensional array is a [list]; a two-dimensional array is the
      list of its rows;
    - a call either returns a value or raises: [Py.result];
    - the pattern dictionary is a [gmap] from tuples ([list Z]) to [Z];
    - [Interp] embeds the symbolisation a second time, as a computation in
      a world that holds the caller's arrays and the state of the global
      random generator, for the statement that a call reads nothing but
      its two arrays and changes nothing. *)

From Stdlib Require Import ZArith Uint63 PrimFloat SpecFloat FloatOps FloatAxioms Lia.
From stdpp Require Import base option list gmap.

Set Warnings "-inexact-float".
Local Open Scope Z_scope.

(** ** Python results *)

Module Py.

Inductive exn : Set := IndexError | KeyError | ValueError.

Inductive result (A : Type) : Type :=
| Ok (a : A)
| Raise (e : exn).
Arguments Ok {A} a.
Arguments Raise {A} e.

Definition bind {A B : Type} (f : A → result B) (r : result A) : result B :=
  match r with
  | Ok a => f a
  | Raise e => Raise e
  end.

#[global] Instance result_ret : MRet result := @Ok.
#[global] Instance result_bind : MBind result := @bind.

Definition returns {A : Type} (r : result A) : bool :=
  match r with Ok _ => true | Raise _ => false end.

(** [range(a, b)] *)
Definition range (a b : Z) : list Z := seqZ a (b - a).

(** [len(l)] *)
Definition len {A : Type} (l : list A) : Z := Z.of_nat (length l).

(** The bound of a slice: a negative bound counts from the end, and
    both are clipped to [0, len]. *)
Definition slice_bound (n i : Z) : Z :=
  if i <? 0 then Z.max (i + n) 0 else Z.min i n.

(** [l[lo:hi]], a missing bound being [None]. *)
Definition slice {A : Type} (l : list A) (lo hi : option Z) : list A :=
  let n := len l in
  let a := match lo with Some i => slice_bound n i | None => 0 end in
  let b := match hi with Some i => slice_bound n i | None => n end in
  take (Z.to_nat (b - a)) (drop (Z.to_nat a) l).

(** [l[i]] on a list or an array: a negative [i] counts from the end,
    anything outside [-len, len) raises [IndexError]. *)
Definition getitem {A : Type} (l : list A) (i : Z) : result A :=
  let n := len l in
  let j := if i <? 0 then i + n else i in
  if (0 <=? j) && (j <? n) then
    match l !! Z.to_nat j with
    | Some a => Ok a
    | None => Raise IndexError
    end
  else Raise IndexError.

End Py.
Import Py.

(** ** itertools *)

Module Itertools.

(** Every way of taking one element out of [l], in the order of [l]. *)
Fixpoint picks {A : Type} (l : list A) : list (A * list A) :=
  match l with
  | [] => []
  | a :: l' => (a, l') :: ((λ br : A * list A, (br.1, a :: br.2)) <$> picks l')
  end.

Fixpoint permutations_of {A : Type} (n : nat) (l : list A) : list (list A) :=
  match n with
  | O => [[]]
  | S n' =>
      ar ← picks l;
      (cons ar.1) <$> permutations_of n' ar.2
  end.

(** [permutations(l)]: the full-length permutations, emitted in
    lexicographic order of the positions in [l]. *)
Definition permutations {A : Type} (l : list A) : list (list A) :=
  permutations_of (length l) l.

End Itertools.

(** ** numpy *)

Module NumPy.

(** [np.arange(start, stop)] on integers that fit 64 bits. *)
Definition arange (start stop : Z) : list Z := seqZ start (stop - start).

(** [x[idxs]] with an integer array [idxs]. *)
Definition take (x : list float) (idxs : list Z) : result (list float) :=
  mapM (getitem x) idxs.

(** [np.c_[col, X]]: [col] becomes the first column of [X]. A
    one-dimensional [X] is its column of one-element rows. *)
Definition c_ (col : list float) (X : list (list float)) : list (list float) :=
  zip_with cons col X.

(** [X.reshape(len(X), -1)]: the rows stay as they are; the unknown
    dimension cannot be inferred when [len(X)] is 0, and numpy raises
    [ValueError] ("cannot reshape array of size 0 into shape
    (0,newaxis)"). *)
Definition reshape_rows (X : list (list float)) : result (list (list float)) :=
  if len X =? 0 then Raise ValueError else Ok X.

(** The order numpy sorts floats by: [nan] after everything else. *)
Definition less (a b : float) : bool :=
  PrimFloat.ltb a b || (negb (PrimFloat.eqb b b) && PrimFloat.eqb a a).

(** One step of the insertion sort on indices: [vi] moves left past
    every index whose value is greater. [sorted] is held right to left. *)
Fixpoint insert_index (vi : Z * float) (sorted : list (Z * float)) : list (Z * float) :=
  match sorted with
  | [] => [vi]
  | pk :: rest =>
      if less vi.2 pk.2 then pk :: insert_index vi rest else vi :: sorted
  end.

(** [np.argsort(v)] of one row: the positions of the row in ascending
    order of their values. numpy's default sort promises no order among
    equal values (among them all the [nan]s), and from four values on it
    is seen to reorder them; here equal values keep their order. This is
    what the code computes on a row without equal values, where the
    ascending order is unique, and on a row of two values. The statements
    below rest on nothing else: on the result being a rearrangement of the
    positions that is the same for the same row, on rows without equal
    values, or on rows of at most two values. *)
Definition argsort (v : list float) : list Z :=
  (reverse (foldl (λ acc vi, insert_index vi acc) []
              (imap (λ i a, (Z.of_nat i, a)) v))).*1.

(** [np.append(a, b)] of two one-dimensional sequences. *)
Definition append (a b : list float) : list float := a ++ b.

(** [np.sum] of [float64] values is numpy's pairwise summation. The
    running sum [res += a[i]], from left to right: *)
Definition sum_left (res : float) (a : list float) : float :=
  foldl PrimFloat.add res a.

(** The eight running sums [r[j] += a[i + j]] over the full blocks of
    eight values; what is left of [a] is returned with them. *)
Fixpoint sum_blocks (r a : list float) (fuel : nat) : list float * list float :=
  match fuel with
  | O => (r, a)
  | S fuel' =>
      if (8 <=? length a)%nat
      then sum_blocks (zip_with PrimFloat.add r (firstn 8 a)) (skipn 8 a) fuel'
      else (r, a)
  end.

(** Up to 128 values. Fewer than eight are added from left to right,
    from -0.0 on. Otherwise the eight running sums start as the first
    eight values, take the further full blocks, are combined as
    [((r0 + r1) + (r2 + r3)) + ((r4 + r5) + (r6 + r7))], and the values
    left over are added one by one. *)
Definition sum_unrolled (a : list float) : float :=
  let (r, rest) := sum_blocks (firstn 8 a) (skipn 8 a) (length a) in
  match r with
  | [r0; r1; r2; r3; r4; r5; r6; r7] =>
      sum_left
        (PrimFloat.add
           (PrimFloat.add (PrimFloat.add r0 r1) (PrimFloat.add r2 r3))
           (PrimFloat.add (PrimFloat.add r4 r5) (PrimFloat.add r6 r7)))
        rest
  | _ => sum_left PrimFloat.neg_zero a
  end.

(** More than 128 values are cut in two, the first part being [n / 2]
    rounded down to a multiple of eight, and the sums of the two parts
    are added. [fuel] bounds the depth of the halving; the length of [a]
    is enough. *)
Fixpoint pairwise_sum (a : list float) (fuel : nat) : float :=
  match fuel with
  | O => sum_unrolled a
  | S fuel' =>
      let n := length a in
      if (128 <? n)%nat then
        let n2 := (n / 2)%nat in
        let n2 := (n2 - n2 mod 8)%nat in
        PrimFloat.add (pairwise_sum (firstn n2 a) fuel') (pairwise_sum (skipn n2 a) fuel')
      else sum_unrolled a
  end.

(** [np.sum(a)]: 0.0 when empty. *)
Definition sum (a : list float) : float :=
  match a with
  | [] => 0%float
  | _ => pairwise_sum a (length a)
  end.

(** [np.mean(a)]: the sum over the count; [nan] (0.0/0) when empty. *)
Definition mean (a : list float) : float :=
  PrimFloat.div (sum a) (PrimFloat.of_uint63 (Uint63.of_Z (len a))).

(** [np.std(a)]: the root of the mean squared deviation (ddof = 0). *)
Definition std (a : list float) : float :=
  let arrmean := mean a in
  let x := (λ v, PrimFloat.sub v arrmean) <$> a in
  let x := (λ v, PrimFloat.mul v v) <$> x in
  PrimFloat.sqrt (PrimFloat.div (sum x) (PrimFloat.of_uint63 (Uint63.of_Z (len a)))).

End NumPy.

(** ** scipy.signal *)

Module SciPy.

(** [x[i]] inside the peak finder, whose loops keep [i] in range. *)
Definition item (x : list float) (i : Z) : float :=
  nth (Z.to_nat i) x 0%float.

(** The look-ahead over a plateau: the next sample unequal to [xi]. *)
Fixpoint skip_plateau (x : list float) (xi : float) (i_max : Z)
    (fuel : nat) (i_ahead : Z) : Z :=
  match fuel with
  | O => i_ahead
  | S fuel' =>
      if (i_ahead <? i_max) && PrimFloat.eqb (item x i_ahead) xi
      then skip_plateau x xi i_max fuel' (i_ahead + 1)
      else i_ahead
  end.

Fixpoint local_maxima_from (x : list float) (i_max : Z) (fuel : nat) (i : Z)
  : list Z :=
  match fuel with
  | O => []
  | S fuel' =>
      if i <? i_max then
        if PrimFloat.ltb (item x (i - 1)) (item x i) then
          let i_ahead := skip_plateau x (item x i) i_max (length x) (i + 1) in
          if PrimFloat.ltb (item x i_ahead) (item x i)
          then (i + (i_ahead - 1)) / 2 :: local_maxima_from x i_max fuel' (i_ahead + 1)
          else local_maxima_from x i_max fuel' (i + 1)
        else local_maxima_from x i_max fuel' (i + 1)
      else []
  end.

(** The midpoints of the local maxima of [x]: samples (or plateaus)
    whose two neighbours are strictly lower; never the first or the
    last sample. *)
Definition local_maxima_1d (x : list float) : list Z :=
  local_maxima_from x (len x - 1) (length x) 1.

(** Marks the peaks before position [j] that are closer than
    [distance] to it. *)
Fixpoint drop_earlier (peaks : list Z) (distance pj : Z) (fuel : nat) (k : Z)
    (keep : list bool) : list bool :=
  match fuel with
  | O => keep
  | S fuel' =>
      if (0 <=? k) && (pj - nth (Z.to_nat k) peaks 0 <? distance)
      then drop_earlier peaks distance pj fuel' (k - 1) (<[Z.to_nat k := false]> keep)
      else keep
  end.

(** Marks the peaks after position [j] that are closer than
    [distance] to it. *)
Fixpoint drop_later (peaks : list Z) (distance pj : Z) (fuel : nat) (k : Z)
    (keep : list bool) : list bool :=
  match fuel with
  | O => keep
  | S fuel' =>
      if (k <? len peaks) && (nth (Z.to_nat k) peaks 0 - pj <? distance)
      then drop_later peaks distance pj fuel' (k + 1) (<[Z.to_nat k := false]> keep)
      else keep
  end.

(** Minimum horizontal separation: peaks are visited from the highest
    to the lowest, and a kept peak removes its neighbours closer than
    [distance]. *)
Definition select_by_peak_distance (peaks : list Z) (priority : list float)
    (distance : Z) : list bool :=
  foldl (λ keep j,
           if nth (Z.to_nat j) keep false then
             let pj := nth (Z.to_nat j) peaks 0 in
             let keep := drop_earlier peaks distance pj (length peaks) (j - 1) keep in
             drop_later peaks distance pj (length peaks) (j + 1) keep
           else keep)
        (replicate (length peaks) true)
        (reverse (NumPy.argsort priority)).

Definition fmax (a b : float) : float := if PrimFloat.ltb a b then b else a.

(** The lowest sample between the peak and the first higher sample (or
    the window's border), walking in direction [step]. *)
Fixpoint base_min (x : list float) (xp : float) (lo hi step : Z) (fuel : nat)
    (i : Z) (cur : float) : float :=
  match fuel with
  | O => cur
  | S fuel' =>
      if (lo <=? i) && (i <=? hi) && PrimFloat.leb (item x i) xp
      then base_min x xp lo hi step fuel' (i + step)
             (if PrimFloat.ltb (item x i) cur then item x i else cur)
      else cur
  end.

(** The prominence of one peak inside the window of [wlen] samples
    around it. *)
Definition peak_prominence (x : list float) (wlen peak : Z) : float :=
  let i_min := Z.max (peak - wlen / 2) 0 in
  let i_max := Z.min (peak + wlen / 2) (len x - 1) in
  let xp := item x peak in
  let left_min := base_min x xp i_min i_max (-1) (S (length x)) peak xp in
  let right_min := base_min x xp i_min i_max 1 (S (length x)) peak xp in
  PrimFloat.sub xp (fmax left_min right_min).

Definition select {A : Type} (keep : list bool) (l : list A) : list A :=
  (filter (λ kb : bool * A, kb.1 = true) (zip keep l)).*2.

(** Modelled from the spec: [scipy.signal.find_peaks] is the external
    peak-finding capability of section 4.1 and is not among the
    sources. It is the "local-maxima extraction over the mean-TE
    sequence constrained by: minimum height = threshold, minimum
    horizontal separation = minDistance, minimum prominence =
    prominence, local search window = windowLength", returning "indices
    in increasing order"; the constraints are applied in scipy's order
    (height, distance, prominence), and a [distance] below 1 or a
    [wlen] below 2 is refused with [ValueError]. *)
Definition find_peaks (x : list float) (height : float) (distance : Z)
    (prominence : float) (wlen : Z) : result (list Z) :=
  if distance <? 1 then Raise ValueError
  else
    let peaks := local_maxima_1d x in
    let peaks := filter (λ p, PrimFloat.leb height (item x p) = true) peaks in
    let keep := select_by_peak_distance peaks (item x <$> peaks) distance in
    let peaks := select keep peaks in
    if wlen <? 2 then Raise ValueError
    else
      Ok (filter (λ p, PrimFloat.leb prominence (peak_prominence x wlen p) = true) peaks).

End SciPy.

(** ** Peak parsing of the time-delayed TE curve *)

(** The background sample of [parse_peaks]:
    [np.append(td_te_means[: _n], td_te_means[-_n :])] with
    [_n = len(td_lags) // 10]. *)
Definition background_series (td_lags : list Z) (td_te_means : list float)
  : list float :=
  let _n := len td_lags / 10 in
  NumPy.append (slice td_te_means None (Some _n))
               (slice td_te_means (Some (- _n)) None).

(** The body of the loop over [peak_idxs]: the significance of the peak
    at [idx]. *)
Definition peak_signif (td_lags : list Z) (td_te_means : list float)
    (ci_bg_ub : float) (idx : Z) : result bool :=
  let _series := background_series td_lags td_te_means in
  let _mean := NumPy.mean _series in
  let _std := NumPy.std _series in
  v ← getitem td_te_means idx;
  mret (PrimFloat.ltb ci_bg_ub v
        && PrimFloat.ltb (PrimFloat.add _mean (PrimFloat.mul 3 _std)) v).

(** What [parse_peaks] returns:
    [(peak_idxs, peak_taus, peak_strengths, peak_stds, peak_signifs)]. *)
Record peaks : Type := Peaks {
  peak_idxs : list Z;
  peak_taus : list Z;
  peak_strengths : list float;
  peak_stds : list float;
  peak_signifs : list bool
}.

(** [parse_peaks(tau_x, td_lags, td_te_info, ci_bg_ub, thres, distance,
    prominence)]; an argument left at its default [None] is [None]. *)
Definition parse_peaks (tau_x : Z) (td_lags : list Z)
    (td_te_info : list (float * float)) (ci_bg_ub : float)
    (thres : option float) (distance : option Z) (prominence : option float)
  : result peaks :=
  let thres := default ci_bg_ub thres in
  let distance := default (2 * tau_x) distance in
  let prominence := default 0.01%float prominence in
  let td_te_means := td_te_info.*1 in
  let td_te_stds := td_te_info.*2 in
  peak_idxs ← SciPy.find_peaks td_te_means thres distance prominence
                 (Z.max 2 (len td_lags / 2));
  if len peak_idxs =? 0 then
    mret (Peaks peak_idxs [] [] [] [])
  else
    peak_taus ← mapM (getitem td_lags) peak_idxs;
    peak_strengths ← mapM (getitem td_te_means) peak_idxs;
    peak_stds ← mapM (getitem td_te_stds) peak_idxs;
    peak_signifs ← mapM (peak_signif td_lags td_te_means ci_bg_ub) peak_idxs;
    mret (Peaks peak_idxs peak_taus peak_strengths peak_stds peak_signifs).

(** ** Sequence symbolisation *)

(** [_build_embed_series(x, idxs, m, tau)]. The one-dimensional [x[idxs]]
    enters [np.c_] as a column, so it is held as its one-element rows from
    the start, and the final [reshape(len(X_embed), -1)] leaves the rows
    as they are. [idxs - i * tau] is numpy's subtraction on 64-bit
    integers, which is the subtraction of [Z] as long as [idxs], [i * tau]
    and the difference fit 64 bits. *)
Definition _build_embed_series (x : list float) (idxs : list Z) (m tau : Z)
  : result (list (list float)) :=
  X_embed ← NumPy.take x idxs;
  X_embed ← foldl (λ (acc : result (list (list float))) (i : Z),
                     X_embed ← acc;
                     col ← NumPy.take x ((λ idx, idx - i * tau) <$> idxs);
                     mret (NumPy.c_ col X_embed))
                  (Ok ((λ v, [v]) <$> X_embed)) (range 1 m);
  NumPy.reshape_rows X_embed.

(** [{patterns[i]: i for i in range(len(patterns))}] *)
Definition dict_of_patterns (patterns : list (list Z)) : gmap (list Z) Z :=
  foldl (λ d ip, <[ip.2 := ip.1]> d) ∅ (imap (λ i p, (Z.of_nat i, p)) patterns).

(** [dict_pattern_index[tuple(p)]] *)
Definition dict_getitem (d : gmap (list Z) Z) (p : list Z) : result Z :=
  match d !! p with
  | Some i => Ok i
  | None => Raise KeyError
  end.

(** [continuously_symbolize(x, y, m, tau_x, tau_y)] *)
Definition continuously_symbolize (x y : list float) (m tau_x tau_y : Z)
  : result (list Z * list Z) :=
  let patterns := Itertools.permutations ((λ k, k + 1) <$> NumPy.arange 0 m) in
  let dict_pattern_index := dict_of_patterns patterns in
  let idxs := NumPy.arange ((m - 1) * Z.max tau_x tau_y) (len x) in
  X_embed ← _build_embed_series x idxs m tau_x;
  Y_embed ← _build_embed_series y idxs m tau_y;
  let X := (λ row, (λ k, k + 1) <$> NumPy.argsort row) <$> X_embed in
  X ← mapM (dict_getitem dict_pattern_index) X;
  let Y := (λ row, (λ k, k + 1) <$> NumPy.argsort row) <$> Y_embed in
  Y ← mapM (dict_getitem dict_pattern_index) Y;
  mret (X, Y).

(** ** The calls inside a running interpreter *)

Module Interp.

(** What a call can reach besides the values of its arguments: the arrays
    the caller holds, each under its address, and the state of numpy's
    global random generator. *)
Record world : Type := World {
  arrays : nat → list float;
  rng : Z
}.

(** A computation: from the world it starts in to its result and the
    world it leaves. An exception ends the computation in the world where
    it was raised. *)
Definition run (A : Type) : Type := world → result A * world.

Definition ret {A : Type} (a : A) : run A := λ w, (Ok a, w).

Definition bind {A B : Type} (f : A → run B) (c : run A) : run B :=
  λ w, match c w with
       | (Ok a, w') => f a w'
       | (Raise e, w') => (Raise e, w')
       end.

#[global] Instance run_ret : MRet run := @ret.
#[global] Instance run_bind : MBind run := @bind.

(** A value or an exception computed without the world. *)
Definition lift {A : Type} (r : result A) : run A := λ w, (r, w).

(** Reading the array at [p]. *)
Definition load (p : nat) : run (list float) := λ w, (Ok (arrays w p), w).

(** The two ways a computation changes the world: writing the array at
    [p] in place, and drawing from the global generator. The source does
    neither. *)
Definition store (p : nat) (a : list float) : run unit :=
  λ w, (Ok (), World (λ q, if decide (q = p) then a else arrays w q) (rng w)).

Definition draw : run Z := λ w, (Ok (rng w), World (arrays w) (rng w + 1)).

(** [x[idxs]] on the array at [p]: a new array. *)
Definition take (p : nat) (idxs : list Z) : run (list float) :=
  x ← load p; lift (NumPy.take x idxs).

(** [_build_embed_series] on the array at [p]. Every array it builds
    ([x[idxs]], [idxs - i * tau], [np.c_[...]]) is new, and the final
    [reshape] is a view of the new matrix. *)
Definition _build_embed_series (p : nat) (idxs : list Z) (m tau : Z)
  : run (list (list float)) :=
  X_embed ← take p idxs;
  X_embed ← foldl (λ (acc : run (list (list float))) (i : Z),
                     X_embed ← acc;
                     col ← take p ((λ idx, idx - i * tau) <$> idxs);
                     mret (NumPy.c_ col X_embed))
                  (mret ((λ v, [v]) <$> X_embed)) (range 1 m);
  lift (NumPy.reshape_rows X_embed).

(** [continuously_symbolize] on the arrays at [px] and [py]. [patterns]
    and [dict_pattern_index] are local to the call; [np.argsort],
    [np.array] and [flatten] return new arrays. *)
Definition continuously_symbolize (px py : nat) (m tau_x tau_y : Z)
  : run (list Z * list Z) :=
  let patterns := Itertools.permutations ((λ k, k + 1) <$> NumPy.arange 0 m) in
  let dict_pattern_index := dict_of_patterns patterns in
  x ← load px;
  let idxs := NumPy.arange ((m - 1) * Z.max tau_x tau_y) (len x) in
  X_embed ← _build_embed_series px idxs m tau_x;
  Y_embed ← _build_embed_series py idxs m tau_y;
  let X := (λ row, (λ k, k + 1) <$> NumPy.argsort row) <$> X_embed in
  X ← lift (mapM (dict_getitem dict_pattern_index) X);
  let Y := (λ row, (λ k, k + 1) <$> NumPy.argsort row) <$> Y_embed in
  Y ← lift (mapM (dict_getitem dict_pattern_index) Y);
  mret (X, Y).

End Interp.

(** ** Notions the statements are written with *)

(** The delay-spaced window that ends at [idx]: the samples at
    [idx - k*tau], ..., [idx - tau], [idx], oldest first, read by plain
    position (no counting from the end). *)
Fixpoint window (x : list float) (tau idx : Z) (k : nat) : list float :=
  match k with
  | O => [nth (Z.to_nat idx) x 0%float]
  | S k' => nth (Z.to_nat (idx - Z.of_nat k * tau)) x 0%float :: window x tau idx k'
  end.

(** The accesses of [_build_embed_series]: [idxs - i * tau] for every
    [i] of [range(0, m)] stay inside [0, len(x)). *)
Definition in_bounds (x : list float) (idxs : list Z) (m tau : Z) : Prop :=
  ∀ idx i, idx ∈ idxs → 0 ≤ i < m → 0 ≤ idx - i * tau < len x.

(** The number of ordinal patterns of dimension [m]. *)
Definition factorial (m : Z) : Z := Z.of_nat (fact (Z.to_nat m)).

(** A world that holds [x] at address 0 and [y] at every other address,
    with the generator in state [seed]. *)
Definition world_of (x y : list float) (seed : Z) : Interp.world :=
  Interp.World (λ p, match p with O => x | S _ => y end) seed.

(** The symbols of the embedded pairs [(x[idx-1], x[idx])] at [idxs]:
    [asc] for a pair that rises, [desc] for one that falls, none for a
    pair of equal values. *)
Definition pair_symbols (asc desc : Z) (x : list float) (idxs : list Z)
  : list (option Z) :=
  (λ idx,
     let a := nth (Z.to_nat (idx - 1)) x 0%float in
     let b := nth (Z.to_nat idx) x 0%float in
     if PrimFloat.ltb a b then Some asc
     else if PrimFloat.ltb b a then Some desc
     else None) <$> idxs.

(** The reference sample as section 4.1 words it: the first and the last
    [n] mean-TE values, concatenated. *)
Definition edge_sample (n : nat) (td_te_means : list float) : list float :=
  take n td_te_means ++ drop (length td_te_means - n) td_te_means.

(** The significance test of section 4.1 on a reference sample:
    [strength > ciUpperBound] and [strength > mu + 3*sigma]. *)
Definition signif_criterion (sample : list float) (ci_bg_ub strength : float) : bool :=
  PrimFloat.ltb ci_bg_ub strength
  && PrimFloat.ltb (PrimFloat.add (NumPy.mean sample) (PrimFloat.mul 3 (NumPy.std sample)))
       strength.

(** The pattern dictionary of a call with dimension [m]. *)
Definition pattern_dict (m : Z) : gmap (list Z) Z :=
  dict_of_patterns (Itertools.permutations ((λ k, k + 1) <$> NumPy.arange 0 m)).

(** The rank pattern of the window of [s] that ends at [idx]:
    [np.argsort(row) + 1]. *)
Definition rank_pattern (s : list float) (tau m idx : Z) : list Z :=
  (λ k, k + 1) <$> NumPy.argsort (window s tau idx (Z.to_nat (m - 1))).

(** The symbol the dictionary holds for that pattern. *)
Definition symbol_at (s : list float) (tau m idx : Z) : Z :=
  default 0 (pattern_dict m !! rank_pattern s tau m idx).

(** A row in sorted order, read left to right: no value sorts before the
    value to its left. *)
Fixpoint sorted_after (prev : float) (row : list float) : bool :=
  match row with
  | [] => true
  | b :: row' => negb (NumPy.less b prev) && sorted_after b row'
  end.

Definition is_sorted (row : list float) : bool :=
  match row with
  | [] => true
  | a :: row' => sorted_after a row'
  end.

(** Two series that order their samples alike: of one length, and
    comparing any two positions in numpy's sorting order gives the same
    answer in both. *)
Definition same_order (s s' : list float) : Prop :=
  length s = length s'
  ∧ ∀ i j : nat, (i < length s)%nat → (j < length s)%nat →
      NumPy.less (nth i s 0%float) (nth j s 0%float)
      = NumPy.less (nth i s' 0%float) (nth j s' 0%float).

(** [s[k]] for [k] in [-len(s), len(s))]: a negative [k] is counted from
    the end. *)
Definition wrapped (s : list float) (k : Z) : float :=
  nth (Z.to_nat (k `mod` len s)) s 0%float.

(** The row [f(idx - k*tau), ..., f(idx - tau), f(idx)]. *)
Fixpoint window_by (f : Z → float) (tau idx : Z) (k : nat) : list float :=
  match k with
  | O => [f idx]
  | S k' => f (idx - Z.of_nat k * tau) :: window_by f tau idx k'
  end.

(** An integer that fits numpy's 64-bit index type. *)
Definition fits_int64 (k : Z) : Prop :=
  -9223372036854775808 ≤ k < 9223372036854775808.

(** The integer arithmetic of [_build_embed_series] stays within 64 bits:
    every product [i * tau] of the loop, every index, and every difference
    [idx - i * tau]. *)
Definition int64_safe (idxs : list Z) (m tau : Z) : Prop :=
  (∀ i, 0 ≤ i < m → fits_int64 (i * tau))
  ∧ (∀ idx i, idx ∈ idxs → 0 ≤ i < m →
       fits_int64 idx ∧ fits_int64 (idx - i * tau)).

(** A row that strictly ascends, read left to right: every value sorts
    after the value to its left. Such a row has no two equal values. *)
Fixpoint ascends_after (prev : float) (row : list float) : bool :=
  match row with
  | [] => true
  | b :: row' => NumPy.less prev b && ascends_after b row'
  end.

Definition strictly_ascending (row : list float) : bool :=
  match row with
  | [] => true
  | a :: row' => ascends_after a row'
  end.

(** A series without two equal samples in numpy's sorting order: of any
    two samples, one sorts before the other (so at most one is [nan]). *)
Fixpoint no_ties (s : list float) : bool :=
  match s with
  | [] => true
  | a :: s' => forallb (λ b, NumPy.less a b || NumPy.less b a) s' && no_ties s'
  end.

(** ** Inputs of the worked scenarios *)

Definition xs10 : list float :=
  [1; 3; 2; 5; 4; 6; 7; 9; 8; 10]%float.

Definition lags6 : list Z := [0; 1; 2; 3; 4; 5].

Definition te6 : list float := [0.1; 0.1; 0.9; 0.2; 0.1; 0.1]%float.

(** A mean-TE curve of three very small values. *)
Definition tiny3 : list (float * float) := [(0, 0); (1e-200, 0); (0, 0)]%float.

Definition lags12 : list Z := [0; 1; 2; 3; 4; 5; 6; 7; 8; 9; 10; 11].

Definition te12 : list (float * float) :=
  [(0, 0.01); (0, 0.01); (0.5, 0.02); (0, 0.01); (0, 0.01); (0, 0.01);
   (0, 0.01); (0, 0.01); (0, 0.01); (0, 0.01); (0, 0.01); (0, 0.01)]%float.

(** ** Auxiliary facts: the order of floats *)

Lemma SFcompare_refl (f : spec_float) :
  SFcompare f f = None ∨ SFcompare f f = Some Eq.
Proof.
  destruct f as [s|s| |s m e]; cbn; auto.
  - destruct s; auto.
  - destruct s; rewrite Z.compare_refl, Pos.compare_cont_refl; auto.
Qed.

Lemma SFcompare_Lt_swap (f g : spec_float) :
  SFcompare f g = Some Lt → SFcompare g f = Some Gt.
Proof.
  assert (∀ m m', Pos.compare_cont Eq m' m = CompOpp (Pos.compare_cont Eq m m')) as Hpos.
  { intros m m'. symmetry. apply (Pos.compare_cont_antisym m m' Eq). }
  destruct f as [s|s| |s m e], g as [s'|s'| |s' m' e']; cbn;
    try destruct s; try destruct s'; try congruence;
    rewrite (Z.compare_antisym e e'), (Hpos m m');
    destruct (Z.compare e e'); cbn; try congruence;
    destruct (Pos.compare_cont Eq m m'); cbn; congruence.
Qed.

Lemma SFcompare_Some_refl (f g : spec_float) (c : comparison) :
  SFcompare f g = Some c → SFcompare f f = Some Eq ∧ SFcompare g g = Some Eq.
Proof.
  intros H. destruct (SFcompare_refl f) as [Hf|Hf], (SFcompare_refl g) as [Hg|Hg]; auto;
  exfalso; destruct f as [s|s| |s m e], g as [s'|s'| |s' m' e']; cbn in *;
    try destruct s; try destruct s'; try congruence.
Qed.

Lemma SFcompare_None_l (f g : spec_float) :
  SFcompare f f = None → SFcompare f g = None.
Proof. destruct f as [s|s| |s m e]; cbn; congruence. Qed.

(** No value sorts before itself, [nan] included. *)
Lemma less_irrefl (a : float) : NumPy.less a a = false.
Proof.
  unfold NumPy.less. rewrite FloatAxioms.ltb_spec, FloatAxioms.eqb_spec.
  unfold SFltb, SFeqb.
  destruct (SFcompare_refl (Prim2SF a)) as [-> | ->]; reflexivity.
Qed.

(** Of two values, at most one sorts before the other. *)
Lemma less_asym (a b : float) : NumPy.less a b = true → NumPy.less b a = false.
Proof.
  unfold NumPy.less. rewrite !FloatAxioms.ltb_spec, !FloatAxioms.eqb_spec.
  unfold SFltb, SFeqb.
  destruct (SFcompare (Prim2SF a) (Prim2SF b)) as [[| |]|] eqn:Hab; cbn.
  - destruct (SFcompare_Some_refl _ _ _ Hab) as [-> ->]. cbn. discriminate.
  - intros _. rewrite (SFcompare_Lt_swap _ _ Hab).
    destruct (SFcompare_Some_refl _ _ _ Hab) as [-> ->]. reflexivity.
  - destruct (SFcompare_Some_refl _ _ _ Hab) as [-> ->]. cbn. discriminate.
  - destruct (SFcompare_refl (Prim2SF b)) as [Hb|Hb]; rewrite Hb; cbn; [|discriminate].
    rewrite (SFcompare_None_l _ (Prim2SF a) Hb).
    destruct (SFcompare (Prim2SF a) (Prim2SF a)) as [[| |]|]; cbn; congruence.
Qed.

(** ** Auxiliary facts: results, ranges, indexing *)

Section results.
Context {A B : Type}.

Lemma mapM_Ok (f : A → result B) (g : A → B) (l : list A) :
  Forall (λ a, f a = Ok (g a)) l → mapM f l = Ok (g <$> l).
Proof.
  induction 1 as [|a l Ha _ IH]; [reflexivity|].
  cbn. rewrite Ha. cbn. rewrite IH. reflexivity.
Qed.

Lemma mapM_Ok_inv (f : A → result B) (l : list A) (k : list B) :
  mapM f l = Ok k → Forall2 (λ a b, f a = Ok b) l k.
Proof.
  revert k. induction l as [|a l IH]; intros k Hk; cbn in Hk.
  - injection Hk as <-. constructor.
  - destruct (f a) as [b|e] eqn:Hb; cbn in Hk; [|discriminate].
    destruct (mapM f l) as [k'|e] eqn:Hl; cbn in Hk; [|discriminate].
    injection Hk as <-. constructor; [exact Hb|]. apply IH. reflexivity.
Qed.

End results.

Lemma elem_of_arange (start stop idx : Z) :
  idx ∈ NumPy.arange start stop ↔ start ≤ idx < stop.
Proof. unfold NumPy.arange. rewrite elem_of_seqZ. lia. Qed.

Lemma length_arange (start stop : Z) :
  len (NumPy.arange start stop) = Z.max 0 (stop - start).
Proof. unfold NumPy.arange, len. rewrite length_seqZ. lia. Qed.

Lemma getitem_in_range {A : Type} (l : list A) (i : Z) (d : A) :
  0 ≤ i < len l → getitem l i = Ok (nth (Z.to_nat i) l d).
Proof.
  intros Hi. unfold getitem, len in *.
  destruct (Z.ltb_spec i 0) as [?|_]; [lia|].
  destruct (Z.leb_spec 0 i) as [_|?]; [|lia].
  destruct (Z.ltb_spec i (Z.of_nat (length l))) as [_|?]; [|lia].
  cbn. destruct (l !! Z.to_nat i) as [a|] eqn:Hl.
  - rewrite (nth_lookup_Some _ _ d _ Hl). reflexivity.
  - apply lookup_ge_None in Hl. lia.
Qed.

Lemma getitem_beyond {A : Type} (l : list A) (i : Z) :
  len l ≤ i → getitem l i = Raise IndexError.
Proof.
  intros Hi. unfold getitem, len in *.
  destruct (Z.ltb_spec i 0) as [?|_]; [lia|].
  destruct (Z.ltb_spec i (Z.of_nat (length l))) as [?|_]; [lia|].
  rewrite andb_false_r. reflexivity.
Qed.

Lemma take_in_range (x : list float) (ks : list Z) :
  Forall (λ k, 0 ≤ k < len x) ks →
  NumPy.take x ks = Ok ((λ k, nth (Z.to_nat k) x 0%float) <$> ks).
Proof.
  intros H. unfold NumPy.take. apply mapM_Ok.
  eapply Forall_impl; [exact H|]. intros k Hk. cbn. apply getitem_in_range, Hk.
Qed.

(** ** The embedding matrix *)

Lemma length_window x tau idx k : length (window x tau idx k) = S k.
Proof. induction k as [|k IH]; cbn [window length]; [reflexivity|]. rewrite IH. reflexivity. Qed.

Lemma window_lookup x tau idx (k c : nat) :
  (c ≤ k)%nat →
  window x tau idx k !! c
  = Some (nth (Z.to_nat (idx - (Z.of_nat k - Z.of_nat c) * tau)) x 0%float).
Proof.
  revert c. induction k as [|k IH]; intros c Hc.
  - assert (c = 0%nat) as -> by lia. cbn. do 3 f_equal; lia.
  - destruct c as [|c].
    + cbn [window lookup list_lookup]. do 3 f_equal; lia.
    + cbn [window]. rewrite lookup_cons_ne_0 by lia. cbn [pred].
      rewrite IH by lia. do 3 f_equal; lia.
Qed.

Lemma embed_loop_window (x : list float) (idxs : list Z) (tau : Z) (k : nat) :
  in_bounds x idxs (Z.of_nat k + 1) tau →
  foldl (λ (acc : result (list (list float))) (i : Z),
           X_embed ← acc;
           col ← NumPy.take x ((λ idx, idx - i * tau) <$> idxs);
           mret (NumPy.c_ col X_embed))
        (Ok ((λ v, [v]) <$> ((λ k, nth (Z.to_nat k) x 0%float) <$> idxs)))
        (range 1 (Z.of_nat k + 1))
  = Ok ((λ idx, window x tau idx k) <$> idxs).
Proof.
  unfold range. replace (Z.of_nat k + 1 - 1) with (Z.of_nat k) by lia.
  induction k as [|k IH]; intros Hb.
  - cbn. rewrite <- list_fmap_compose. reflexivity.
  - rewrite seqZ_S, foldl_app. rewrite IH.
    2:{ intros idx i Hidx Hi. apply Hb; [exact Hidx|lia]. }
    cbn [foldl]. cbn [mbind result_bind bind].
    rewrite take_in_range.
    2:{ apply Forall_fmap, Forall_forall. intros idx Hidx. cbn.
        apply Hb; [exact Hidx|lia]. }
    cbn [mbind result_bind bind mret result_ret]. f_equal.
    unfold NumPy.c_. rewrite <- list_fmap_compose.
    rewrite zip_with_fmap_l, zip_with_fmap_r, zip_with_diag.
    apply list_fmap_ext. intros _ idx _. cbn [window compose].
    do 3 f_equal; lia.
Qed.

(** With every access in bounds and at least one index,
    [_build_embed_series] returns the matrix of the windows. *)
Lemma build_embed_series_window (x : list float) (idxs : list Z) (m tau : Z) :
  1 ≤ m → idxs ≠ [] → in_bounds x idxs m tau →
  _build_embed_series x idxs m tau
  = Ok ((λ idx, window x tau idx (Z.to_nat (m - 1))) <$> idxs).
Proof.
  intros Hm Hne Hb. unfold _build_embed_series.
  rewrite take_in_range.
  2:{ apply Forall_forall. intros idx Hidx.
      specialize (Hb idx 0 Hidx). replace (idx - 0 * tau) with idx in Hb by lia.
      apply Hb. lia. }
  cbn [mbind result_bind bind].
  replace m with (Z.of_nat (Z.to_nat (m - 1)) + 1) at 1 by lia.
  rewrite embed_loop_window.
  2:{ replace (Z.of_nat (Z.to_nat (m - 1)) + 1) with m by lia. exact Hb. }
  destruct idxs as [|idx idxs]; [congruence|]. reflexivity.
Qed.

(** Without any index the final [reshape(0, -1)] raises. *)
Lemma build_embed_series_empty (x : list float) (m tau : Z) :
  _build_embed_series x [] m tau = Raise ValueError.
Proof.
  unfold _build_embed_series. cbn [NumPy.take mapM mbind result_bind bind mret result_ret fmap list_fmap].
  assert (∀ l, foldl (λ (acc : result (list (list float))) (i : Z),
           X_embed ← acc;
           col ← Ok [];
           mret (NumPy.c_ col X_embed)) (Ok []) l = Ok []) as ->.
  { induction l as [|i l IH]; [reflexivity|]. cbn. exact IH. }
  reflexivity.
Qed.

(** ** Permutations, ranks and the pattern dictionary *)

Lemma length_bind_const {A B : Type} (f : A → list B) (c : nat) (l : list A) :
  Forall (λ a, length (f a) = c) l → length (l ≫= f) = (length l * c)%nat.
Proof.
  induction 1 as [|a l Ha _ IH]; [reflexivity|].
  rewrite bind_cons, length_app, Ha, IH. cbn. lia.
Qed.

Section permutations.
Context {A : Type}.
Implicit Types l p : list A.

Lemma picks_middle l1 a l2 : (a, l1 ++ l2) ∈ Itertools.picks (l1 ++ a :: l2).
Proof.
  induction l1 as [|b l1 IH]; cbn [Itertools.picks app].
  - apply list_elem_of_here.
  - apply list_elem_of_further.
    apply (list_elem_of_fmap_2 (λ br : A * list A, (br.1, b :: br.2)) _ _ IH).
Qed.

Lemma picks_rest l :
  Forall (λ ar, S (length ar.2) = length l) (Itertools.picks l).
Proof.
  induction l as [|a l IH]; cbn [Itertools.picks]; constructor; [reflexivity|].
  apply Forall_fmap. eapply Forall_impl; [exact IH|].
  intros [b r] Hr. cbn in *. lia.
Qed.

Lemma length_picks l : length (Itertools.picks l) = length l.
Proof.
  induction l as [|a l IH]; cbn [Itertools.picks length]; [reflexivity|].
  rewrite length_fmap, IH. reflexivity.
Qed.

(** Every rearrangement of [l] is enumerated. *)
Lemma permutations_of_complete (n : nat) l p :
  length l = n → p ≡ₚ l → p ∈ Itertools.permutations_of n l.
Proof.
  revert l p. induction n as [|n IH]; intros l p Hn Hp.
  - apply nil_length_inv in Hn as ->. apply Permutation_nil_r in Hp as ->.
    apply list_elem_of_here.
  - destruct p as [|a p].
    { symmetry in Hp. apply Permutation_nil_r in Hp as ->. discriminate. }
    assert (a ∈ l) as Ha by (rewrite <- Hp; apply list_elem_of_here).
    apply list_elem_of_split in Ha as (l1 & l2 & ->).
    rewrite <- Permutation_middle in Hp. apply Permutation_cons_inv in Hp.
    cbn [Itertools.permutations_of]. apply list_elem_of_bind.
    exists (a, l1 ++ l2). split; [|apply picks_middle].
    apply list_elem_of_fmap_2, IH; [|exact Hp].
    cbn [snd]. rewrite length_app in Hn. rewrite length_app. cbn [length] in Hn. lia.
Qed.

(** There are [n!] of them. *)
Lemma length_permutations_of (n : nat) l :
  length l = n → length (Itertools.permutations_of n l) = fact n.
Proof.
  revert l. induction n as [|n IH]; intros l Hn; [reflexivity|].
  cbn [Itertools.permutations_of].
  rewrite (length_bind_const _ (fact n)).
  - rewrite length_picks, Hn. reflexivity.
  - eapply Forall_impl; [apply picks_rest|]. intros [a r] Hr. cbn in *.
    rewrite length_fmap. apply IH. lia.
Qed.
End permutations.

Lemma insert_index_perm (vi : Z * float) (sorted : list (Z * float)) :
  NumPy.insert_index vi sorted ≡ₚ vi :: sorted.
Proof.
  induction sorted as [|pk rest IH]; cbn [NumPy.insert_index]; [reflexivity|].
  destruct (NumPy.less vi.2 pk.2); [|reflexivity].
  rewrite IH. apply Permutation_swap.
Qed.

Lemma foldl_insert_index_perm (l acc : list (Z * float)) :
  foldl (λ acc vi, NumPy.insert_index vi acc) acc l ≡ₚ l ++ acc.
Proof.
  revert acc. induction l as [|vi l IH]; intros acc; cbn [foldl app]; [reflexivity|].
  rewrite IH, insert_index_perm. symmetry. apply Permutation_middle.
Qed.

(** [np.argsort] of a row is a rearrangement of the positions of the row. *)
Lemma argsort_perm (v : list float) :
  NumPy.argsort v ≡ₚ seqZ 0 (len v).
Proof.
  unfold NumPy.argsort. rewrite reverse_Permutation, foldl_insert_index_perm, app_nil_r.
  rewrite fmap_imap.
  rewrite (imap_ext _ (λ i _, Z.of_nat i)) by reflexivity.
  rewrite imap_seq_0. unfold seqZ, len. rewrite Nat2Z.id.
  apply Permutation_refl'. apply list_fmap_ext. intros; lia.
Qed.

Lemma dict_of_patterns_fold (ips : list (Z * list Z)) (d : gmap (list Z) Z) (p : list Z) :
  p ∈ ips.*2 →
  ∃ i, foldl (λ d ip, <[ip.2 := ip.1]> d) d ips !! p = Some i ∧ (i, p) ∈ ips.
Proof.
  revert d. induction ips as [|[i q] ips IH] using rev_ind; intros d Hp.
  - cbn in Hp. apply elem_of_nil in Hp as [].
  - rewrite foldl_app. cbn [foldl fst snd].
    destruct (decide (q = p)) as [->|Hne].
    + exists i. rewrite lookup_insert_eq. split; [reflexivity|].
      apply elem_of_app. right. apply list_elem_of_here.
    + rewrite lookup_insert_ne by exact Hne.
      rewrite fmap_app in Hp. apply elem_of_app in Hp as [Hp|Hp].
      * destruct (IH d Hp) as (j & Hj & Hin). exists j. split; [exact Hj|].
        apply elem_of_app. left. exact Hin.
      * cbn in Hp. apply list_elem_of_singleton in Hp. congruence.
Qed.

(** A pattern of the list is a key, and its symbol is a position of the
    list. *)
Lemma dict_of_patterns_lookup (patterns : list (list Z)) (p : list Z) :
  p ∈ patterns →
  ∃ i, dict_of_patterns patterns !! p = Some i ∧ 0 ≤ i < len patterns.
Proof.
  intros Hp. unfold dict_of_patterns.
  destruct (dict_of_patterns_fold (imap (λ i p, (Z.of_nat i, p)) patterns) ∅ p)
    as (i & Hi & Hin).
  { rewrite fmap_imap. rewrite (imap_ext _ (const id)) by reflexivity.
    rewrite imap_const, list_fmap_id. exact Hp. }
  exists i. split; [exact Hi|].
  apply list_elem_of_lookup in Hin as [k Hk].
  rewrite list_lookup_imap in Hk.
  destruct (patterns !! k) as [q|] eqn:Hq; [|discriminate].
  cbn in Hk. injection Hk as <- _.
  apply lookup_lt_Some in Hq. unfold len. lia.
Qed.

Lemma mapM_total {A B : Type} (f : A → result B) (P : B → Prop) (l : list A) :
  Forall (λ a, ∃ b, f a = Ok b ∧ P b) l →
  ∃ k, mapM f l = Ok k ∧ length k = length l ∧ Forall P k.
Proof.
  induction 1 as [|a l (b & Hb & HP) _ (k & Hk & Hlen & HPk)].
  - exists []. repeat split. constructor.
  - exists (b :: k). cbn. rewrite Hb. cbn. rewrite Hk. cbn.
    repeat split; [lia|]. constructor; assumption.
Qed.

(** The rank pattern of a row of [m] values is a key of the dictionary,
    and its symbol lies in [0, m!). *)
Lemma symbol_of_row (m : Z) (row : list float) :
  len row = m →
  ∃ s, dict_getitem
         (dict_of_patterns (Itertools.permutations ((λ k, k + 1) <$> NumPy.arange 0 m)))
         ((λ k, k + 1) <$> NumPy.argsort row) = Ok s
       ∧ 0 ≤ s < factorial m.
Proof.
  intros Hm. unfold dict_getitem.
  destruct (dict_of_patterns_lookup
              (Itertools.permutations ((λ k, k + 1) <$> NumPy.arange 0 m))
              ((λ k, k + 1) <$> NumPy.argsort row)) as (s & Hs & Hrange).
  { apply permutations_of_complete; [reflexivity|].
    rewrite argsort_perm, Hm. unfold NumPy.arange.
    replace (m - 0) with m by lia. reflexivity. }
  exists s. rewrite Hs. split; [reflexivity|].
  unfold len, Itertools.permutations in Hrange.
  rewrite length_permutations_of in Hrange by reflexivity.
  unfold NumPy.arange in Hrange. rewrite length_fmap, length_seqZ in Hrange.
  unfold factorial. replace (m - 0) with m in Hrange by lia. exact Hrange.
Qed.

Lemma symbols_of_rows (m : Z) (rows : list (list float)) :
  Forall (λ row, len row = m) rows →
  ∃ symbols,
    mapM (dict_getitem
            (dict_of_patterns (Itertools.permutations ((λ k, k + 1) <$> NumPy.arange 0 m))))
         ((λ row, (λ k, k + 1) <$> NumPy.argsort row) <$> rows) = Ok symbols
    ∧ length symbols = length rows
    ∧ Forall (λ s, 0 ≤ s < factorial m) symbols.
Proof.
  intros Hrows.
  destruct (mapM_total
              (dict_getitem
                 (dict_of_patterns
                    (Itertools.permutations ((λ k, k + 1) <$> NumPy.arange 0 m))))
              (λ s, 0 ≤ s < factorial m)
              ((λ row, (λ k, k + 1) <$> NumPy.argsort row) <$> rows))
    as (symbols & Hs & Hlen & Hall).
  { apply Forall_fmap. eapply Forall_impl; [exact Hrows|].
    intros row Hrow. cbn. apply symbol_of_row, Hrow. }
  exists symbols. rewrite length_fmap in Hlen. auto.
Qed.

(** ** The valid index range *)

(** With [m], [tau_x], [tau_y] at least 1, every access of both embeddings
    is at a position of [0, len(x)), read without counting from the end. *)
Lemma arange_in_bounds (x s : list float) (m tau_x tau_y tau : Z) :
  1 ≤ m → 1 ≤ tau → tau ≤ Z.max tau_x tau_y → len x ≤ len s →
  in_bounds s (NumPy.arange ((m - 1) * Z.max tau_x tau_y) (len x)) m tau.
Proof.
  intros Hm Htau Hmax Hlen idx i Hidx Hi.
  apply elem_of_arange in Hidx. nia.
Qed.

Lemma arange_nonempty (start stop : Z) :
  start < stop → NumPy.arange start stop ≠ [].
Proof.
  intros H. unfold NumPy.arange. rewrite seqZ_cons by lia. discriminate.
Qed.

Lemma arange_empty (start stop : Z) :
  stop ≤ start → NumPy.arange start stop = [].
Proof. intros H. unfold NumPy.arange. apply seqZ_nil. lia. Qed.

Lemma take_beyond (y : list float) (ks : list Z) (k : Z) :
  k ∈ ks → len y ≤ k → NumPy.take y ks = Raise IndexError.
Proof.
  intros Hk Hlen. unfold NumPy.take.
  induction ks as [|k' ks IH]; [apply elem_of_nil in Hk as []|].
  cbn [mapM]. pose proof (getitem_beyond y k Hlen) as Hraise.
  apply elem_of_cons in Hk as [<-|Hk].
  - rewrite Hraise. reflexivity.
  - rewrite (IH Hk). unfold getitem.
    destruct ((0 <=? (if k' <? 0 then k' + len y else k'))
              && ((if k' <? 0 then k' + len y else k') <? len y)); [|reflexivity].
    destruct (y !! Z.to_nat (if k' <? 0 then k' + len y else k')); reflexivity.
Qed.

(** A series shorter than [x] is indexed past its end. *)
Lemma build_embed_series_short (x y : list float) (m tau_x tau_y tau : Z) :
  (m - 1) * Z.max tau_x tau_y < len x → 0 ≤ (m - 1) * Z.max tau_x tau_y →
  len y < len x →
  _build_embed_series y (NumPy.arange ((m - 1) * Z.max tau_x tau_y) (len x)) m tau
  = Raise IndexError.
Proof.
  intros Hne Hstart Hlen. unfold _build_embed_series.
  rewrite (take_beyond y _ (len x - 1)); [reflexivity| |lia].
  apply elem_of_arange. lia.
Qed.

Lemma continuously_symbolize_empty_range (x y : list float) (m tau_x tau_y : Z) :
  len x ≤ (m - 1) * Z.max tau_x tau_y →
  continuously_symbolize x y m tau_x tau_y = Raise ValueError.
Proof.
  intros H. unfold continuously_symbolize.
  rewrite (arange_empty ((m - 1) * Z.max tau_x tau_y) (len x)) by exact H.
  rewrite !build_embed_series_empty. reflexivity.
Qed.


Lemma build_embed_series_cases (x s : list float) (m tau_x tau_y tau : Z) :
  1 ≤ m → 1 ≤ tau_x → 1 ≤ tau_y → tau = tau_x ∨ tau = tau_y →
  ∀ X_embed,
    _build_embed_series s (NumPy.arange ((m - 1) * Z.max tau_x tau_y) (len x)) m tau
    = Ok X_embed →
    (m - 1) * Z.max tau_x tau_y < len x ∧ len x ≤ len s.
Proof.
  intros Hm Hx Hy Htau X_embed HX.
  destruct (Z.lt_ge_cases ((m - 1) * Z.max tau_x tau_y) (len x)) as [Hne|Hempty].
  - split; [exact Hne|].
    destruct (Z.le_gt_cases (len x) (len s)) as [Hlen|Hlen]; [exact Hlen|].
    rewrite (build_embed_series_short x s m tau_x tau_y tau) in HX;
      [discriminate|lia|nia|lia].
  - rewrite arange_empty, build_embed_series_empty in HX by lia. discriminate.
Qed.

Lemma continuously_symbolize_m1 (x y : list float) (tau_x tau_y : Z) :
  1 ≤ len x → len x ≤ len y →
  continuously_symbolize x y 1 tau_x tau_y
  = Ok (replicate (length x) 0, replicate (length x) 0).
Proof.
  intros Hx Hy. unfold continuously_symbolize.
  replace ((1 - 1) * Z.max tau_x tau_y) with 0 by lia.
  assert (∀ (s : list float) tau,
            len x ≤ len s → in_bounds s (NumPy.arange 0 (len x)) 1 tau) as Hb.
  { intros s tau Hs idx i Hidx Hi. apply elem_of_arange in Hidx.
    assert (i = 0) as -> by lia. lia. }
  rewrite !build_embed_series_window
    by solve [lia | apply arange_nonempty; lia | apply Hb; lia].
  cbn [mbind result_bind bind].
  change (Z.to_nat (1 - 1)) with 0%nat. cbn [window].
  rewrite !(mapM_Ok _ (λ _, 0))
    by (do 2 apply Forall_fmap; apply Forall_forall; intros idx _;
        vm_compute; reflexivity).
  cbn [bind mret result_ret].
  rewrite !(const_fmap (λ _ : list Z, 0) _ 0) by reflexivity.
  rewrite !length_fmap. unfold NumPy.arange, len. rewrite length_seqZ.
  replace (Z.to_nat (Z.of_nat (length x) - 0)) with (length x) by lia.
  reflexivity.
Qed.

Lemma build_embed_series_m0 (s : list float) (idxs : list Z) (m tau : Z) :
  m < 1 →
  _build_embed_series s idxs m tau
  = (X_embed ← NumPy.take s idxs; NumPy.reshape_rows ((λ v, [v]) <$> X_embed)).
Proof.
  intros Hm. unfold _build_embed_series, range. rewrite seqZ_nil by lia.
  destruct (NumPy.take s idxs); reflexivity.
Qed.

Lemma continuously_symbolize_m0 (x y : list float) (m tau_x tau_y : Z) :
  m < 1 → returns (continuously_symbolize x y m tau_x tau_y) = false.
Proof.
  intros Hm. unfold continuously_symbolize.
  rewrite (arange_empty 0 m) by lia.
  rewrite !build_embed_series_m0 by exact Hm.
  destruct (NumPy.take x _) as [[|vx X]|e]; [reflexivity| |reflexivity].
  destruct (NumPy.take y _) as [[|vy Y]|e]; reflexivity.
Qed.

(** ** The background sample of [parse_peaks] *)

Lemma peak_signif_criterion (td_lags : list Z) (td_te_means : list float)
    (ci_bg_ub : float) (idx : Z) :
  peak_signif td_lags td_te_means ci_bg_ub idx
  = (v ← getitem td_te_means idx;
     mret (signif_criterion (background_series td_lags td_te_means) ci_bg_ub v)).
Proof. reflexivity. Qed.

(** From ten lags on, the sample is made of the two edges. *)
Lemma background_series_long_grid (td_lags : list Z) (td_te_means : list float) :
  10 ≤ len td_lags →
  background_series td_lags td_te_means
  = edge_sample (Z.to_nat (len td_lags / 10)) td_te_means.
Proof.
  intros Hlen. unfold background_series, edge_sample, NumPy.append, slice, slice_bound.
  assert (1 ≤ len td_lags / 10) as Hn by (apply Z.div_le_lower_bound; lia).
  set (n := len td_lags / 10) in *. unfold len. set (L := length td_te_means).
  destruct (Z.ltb_spec n 0) as [?|_]; [lia|].
  destruct (Z.ltb_spec (- n) 0) as [_|?]; [|lia].
  rewrite drop_0. f_equal.
  - destruct (Z.le_gt_cases n (Z.of_nat L)) as [Hle|Hgt].
    + f_equal. lia.
    + rewrite !take_ge by (fold L; lia). reflexivity.
  - rewrite take_ge by (rewrite length_drop; fold L; lia). f_equal. lia.
Qed.

(** Below ten lags [_n] is 0, [td_te_means[-0:]] is the whole list, and so
    is the sample. *)
Lemma background_series_short_grid (td_lags : list Z) (td_te_means : list float) :
  len td_lags < 10 →
  background_series td_lags td_te_means = td_te_means.
Proof.
  intros Hlen. unfold background_series, NumPy.append, slice, slice_bound.
  assert (len td_lags / 10 = 0) as -> by (apply Z.div_small; unfold len in *; lia).
  change (- 0) with 0. change (0 <? 0) with false. cbv iota.
  unfold len. rewrite Z.min_l by lia.
  change (Z.to_nat (0 - 0)) with 0%nat. change (Z.to_nat 0) with 0%nat.
  rewrite take_0, drop_0. cbn [app]. apply take_ge. lia.
Qed.

Lemma Forall2_same_domain {A B C : Type} (P : A → B → Prop) (Q : A → C → Prop)
    (R : B → C → Prop) (l : list A) (k1 : list B) (k2 : list C) :
  (∀ a b c, P a b → Q a c → R b c) →
  Forall2 P l k1 → Forall2 Q l k2 → Forall2 R k1 k2.
Proof.
  intros HR HP. revert k2. induction HP as [|a b l k1 Hab _ IH]; intros k2 HQ.
  - inversion HQ. constructor.
  - inversion HQ as [|a' c l' k2' Hac HQ']; subst. constructor; [eauto|].
    apply IH, HQ'.
Qed.

(** Every flag [parse_peaks] returns is the criterion of section 4.1
    applied to the peak's strength, on the sample [background_series]. *)
Lemma parse_peaks_signifs (tau_x : Z) (td_lags : list Z)
    (td_te_info : list (float * float)) (ci_bg_ub : float)
    (thres : option float) (distance : option Z) (prominence : option float)
    (r : peaks) :
  parse_peaks tau_x td_lags td_te_info ci_bg_ub thres distance prominence = Ok r →
  Forall2 (λ strength flag,
             flag = signif_criterion (background_series td_lags td_te_info.*1)
                      ci_bg_ub strength)
          (peak_strengths r) (peak_signifs r).
Proof.
  unfold parse_peaks. intros Hr.
  destruct (SciPy.find_peaks _ _ _ _ _) as [idxs|e]; cbn in Hr; [|discriminate].
  destruct (len idxs =? 0).
  { injection Hr as <-. constructor. }
  destruct (mapM (getitem td_lags) idxs) as [taus|e]; cbn in Hr; [|discriminate].
  destruct (mapM (getitem td_te_info.*1) idxs) as [strengths|e] eqn:Hs;
    cbn in Hr; [|discriminate].
  destruct (mapM (getitem td_te_info.*2) idxs) as [stds|e]; cbn in Hr; [|discriminate].
  destruct (mapM (peak_signif td_lags td_te_info.*1 ci_bg_ub) idxs) as [flags|e] eqn:Hf;
    cbn in Hr; [|discriminate].
  injection Hr as <-. cbn [peak_strengths peak_signifs].
  apply mapM_Ok_inv in Hs, Hf.
  eapply Forall2_same_domain; [|exact Hs|exact Hf].
  intros idx v flag Hv Hflag. cbn in Hv, Hflag.
  rewrite peak_signif_criterion, Hv in Hflag.
  cbn [mbind result_bind bind mret result_ret] in Hflag.
  injection Hflag as <-. reflexivity.
Qed.

(** X2: from ten lags on, every flag [parse_peaks] returns is the
    criterion of C1 applied to the strength at the same position:
    [strength > ci_bg_ub] and [strength > mu + 3*sigma], with [mu] and
    [sigma] the mean and the standard deviation of the first and last
    [len(td_lags) // 10] means. *)
Lemma parse_peaks_signifs_long_grid (tau_x : Z) (td_lags : list Z)
    (td_te_info : list (float * float)) (ci_bg_ub : float)
    (thres : option float) (distance : option Z) (prominence : option float)
    (r : peaks) :
  10 ≤ len td_lags →
  parse_peaks tau_x td_lags td_te_info ci_bg_ub thres distance prominence = Ok r →
  Forall2 (λ strength flag,
             flag = signif_criterion
                      (edge_sample (Z.to_nat (len td_lags / 10)) td_te_info.*1)
                      ci_bg_ub strength)
          (peak_strengths r) (peak_signifs r).
Proof.
  intros Hlen Hr. rewrite <- background_series_long_grid by exact Hlen.
  eapply parse_peaks_signifs, Hr.
Qed.

(** ** The claims on [continuously_symbolize] *)

(** C2, as amended: for [m >= 1], [tau_x >= 1], [tau_y >= 1], a non-empty
    index range and a [y] at least as long as [x], the call returns two
    sequences of [len(x) - (m-1)*max(tau_x, tau_y)] symbols each, every
    symbol in [0, m!). *)
Theorem continuously_symbolize_shape (x y : list float) (m tau_x tau_y : Z) :
  1 ≤ m → 1 ≤ tau_x → 1 ≤ tau_y →
  (m - 1) * Z.max tau_x tau_y < len x → len x ≤ len y →
  ∃ symbolsX symbolsY,
    continuously_symbolize x y m tau_x tau_y = Ok (symbolsX, symbolsY)
    ∧ len symbolsX = len x - (m - 1) * Z.max tau_x tau_y
    ∧ len symbolsY = len x - (m - 1) * Z.max tau_x tau_y
    ∧ Forall (λ s, 0 ≤ s < factorial m) symbolsX
    ∧ Forall (λ s, 0 ≤ s < factorial m) symbolsY.
Proof.
  intros Hm Hx Hy Hne Hlen. unfold continuously_symbolize.
  set (idxs := NumPy.arange ((m - 1) * Z.max tau_x tau_y) (len x)).
  rewrite (build_embed_series_window x idxs m tau_x);
    [|exact Hm|apply arange_nonempty, Hne|apply arange_in_bounds; lia].
  cbn [mbind result_bind bind].
  rewrite (build_embed_series_window y idxs m tau_y);
    [|exact Hm|apply arange_nonempty, Hne|apply arange_in_bounds; lia].
  cbn [mbind result_bind bind].
  destruct (symbols_of_rows m ((λ idx, window x tau_x idx (Z.to_nat (m - 1))) <$> idxs))
    as (symbolsX & HX & HlenX & HallX).
  { apply Forall_fmap, Forall_forall. intros idx _. cbn. unfold len.
    rewrite length_window. lia. }
  destruct (symbols_of_rows m ((λ idx, window y tau_y idx (Z.to_nat (m - 1))) <$> idxs))
    as (symbolsY & HY & HlenY & HallY).
  { apply Forall_fmap, Forall_forall. intros idx _. cbn. unfold len.
    rewrite length_window. lia. }
  exists symbolsX, symbolsY. rewrite HX. cbn [bind]. rewrite HY. cbn [bind mret result_ret].
  rewrite length_fmap in HlenX, HlenY.
  assert (len idxs = len x - (m - 1) * Z.max tau_x tau_y) as Hidxs.
  { subst idxs. rewrite length_arange. lia. }
  unfold len in *. repeat split; try assumption; lia.
Qed.

(** The conditions of C2 hold for the ten samples of C5. *)
Lemma continuously_symbolize_shape_witness :
  ∃ symbolsX symbolsY,
    continuously_symbolize xs10 xs10 2 1 1 = Ok (symbolsX, symbolsY)
    ∧ len symbolsX = len xs10 - (2 - 1) * Z.max 1 1
    ∧ len symbolsY = len xs10 - (2 - 1) * Z.max 1 1
    ∧ Forall (λ s, 0 ≤ s < factorial 2) symbolsX
    ∧ Forall (λ s, 0 ≤ s < factorial 2) symbolsY.
Proof.
  apply (continuously_symbolize_shape xs10 xs10 2 1 1); vm_compute; congruence.
Defined.

(** C2 as stated fails when [y] is shorter than [x]: all its conditions
    hold for x = [1,2,3], y = [1,2], m = 1, tau_x = tau_y = 1, and the call
    raises [IndexError] instead of returning two sequences. *)
Lemma continuously_symbolize_shape_counterexample :
  1 ≤ 1 ∧ (1 - 1) * Z.max 1 1 < len [1; 2; 3]%float
  ∧ continuously_symbolize [1; 2; 3]%float [1; 2]%float 1 1 1 = Raise IndexError
  ∧ ¬ ∃ symbolsX symbolsY,
        continuously_symbolize [1; 2; 3]%float [1; 2]%float 1 1 1
        = Ok (symbolsX, symbolsY).
Proof.
  assert (continuously_symbolize [1; 2; 3]%float [1; 2]%float 1 1 1 = Raise IndexError)
    as H by (vm_compute; reflexivity).
  split; [lia|]. split; [vm_compute; reflexivity|]. split; [exact H|].
  rewrite H. intros (sx & sy & Heq). discriminate.
Qed.

(** C4, at a series too short for its embedding: x = y = [1.0], m = 2,
    tau_x = tau_y = 1 leaves no valid index ([len(x) <= (m-1)*max]), and
    the call raises [ValueError] from [reshape(0, -1)]; so it does for an
    empty [x] with m = 1. *)
Theorem continuously_symbolize_empty_range_raises :
  len [1%float] ≤ (2 - 1) * Z.max 1 1
  ∧ continuously_symbolize [1%float] [1%float] 2 1 1 = Raise ValueError
  ∧ continuously_symbolize [] [] 1 1 1 = Raise ValueError
  ∧ _build_embed_series [1%float] (NumPy.arange ((2 - 1) * Z.max 1 1) (len [1%float])) 2 1
    = Raise ValueError.
Proof.
  split; [vm_compute; congruence|].
  split; [apply continuously_symbolize_empty_range; vm_compute; congruence|].
  split; [apply continuously_symbolize_empty_range; vm_compute; congruence|].
  apply build_embed_series_empty.
Qed.

(** C5, as amended: for x = y = [1,3,2,5,4,6,7,9,8,10], m = 2 and
    tau_x = tau_y = 1 the valid indices are 1..9, and a pair that rises
    maps to symbol 0, a pair that falls to symbol 1, the same in both
    returned sequences. *)
Theorem continuously_symbolize_pairs :
  NumPy.arange ((2 - 1) * Z.max 1 1) (len xs10) = [1; 2; 3; 4; 5; 6; 7; 8; 9]
  ∧ continuously_symbolize xs10 xs10 2 1 1
    = Ok ([0; 1; 0; 1; 0; 0; 0; 1; 0], [0; 1; 0; 1; 0; 0; 0; 1; 0])
  ∧ Some <$> [0; 1; 0; 1; 0; 0; 0; 1; 0]
    = pair_symbols 0 1 xs10 (NumPy.arange ((2 - 1) * Z.max 1 1) (len xs10)).
Proof. split; [|split]; vm_compute; reflexivity. Qed.

(** C5 as stated (0 for a falling pair, 1 for a rising pair) is not what
    is returned: the first pair (1, 3) rises and its symbol is 0. *)
Lemma continuously_symbolize_pairs_counterexample :
  ¬ ∃ symbols,
      continuously_symbolize xs10 xs10 2 1 1 = Ok (symbols, symbols)
      ∧ Some <$> symbols
        = pair_symbols 1 0 xs10 (NumPy.arange ((2 - 1) * Z.max 1 1) (len xs10)).
Proof.
  intros (symbols & Hcall & Hsymbols).
  assert (continuously_symbolize xs10 xs10 2 1 1
          = Ok ([0; 1; 0; 1; 0; 0; 0; 1; 0], [0; 1; 0; 1; 0; 0; 0; 1; 0])) as Heval
    by (vm_compute; reflexivity).
  rewrite Heval in Hcall. injection Hcall as <- _.
  vm_compute in Hsymbols. discriminate.
Qed.




(** C10: for [m], [tau_x], [tau_y] at least 1 and either series' own [tau],
    every valid index [idx] has [idx - i*tau >= 0] for all [0 <= i <= m-1];
    whenever [_build_embed_series] returns, the cell in row [r] and column
    [c] is the sample at the plain position [idx_r - (m-1-c)*tau], a
    position that is not negative, so nothing is read by counting from the
    end; and it does return when there is a valid index and the series is
    at least as long as [x]. *)
Theorem build_embed_series_no_wraparound (x s : list float) (m tau_x tau_y tau : Z) :
  1 ≤ m → 1 ≤ tau_x → 1 ≤ tau_y → tau = tau_x ∨ tau = tau_y →
  let idxs := NumPy.arange ((m - 1) * Z.max tau_x tau_y) (len x) in
  (∀ idx i, idx ∈ idxs → 0 ≤ i ≤ m - 1 → 0 ≤ idx - i * tau)
  ∧ (∀ X_embed, _build_embed_series s idxs m tau = Ok X_embed →
       ∀ (r : nat) (idx c : Z), idxs !! r = Some idx → 0 ≤ c < m →
         ∃ v, X_embed !! r ≫= (λ row, row !! Z.to_nat c) = Some v
              ∧ 0 ≤ idx - (m - 1 - c) * tau
              ∧ s !! Z.to_nat (idx - (m - 1 - c) * tau) = Some v)
  ∧ (idxs ≠ [] → len x ≤ len s →
       _build_embed_series s idxs m tau
       = Ok ((λ idx, window s tau idx (Z.to_nat (m - 1))) <$> idxs)).
Proof.
  intros Hm Hx Hy Htau idxs.
  assert (tau ≤ Z.max tau_x tau_y ∧ 1 ≤ tau) as [Hmax Hpos] by lia.
  split.
  { intros idx i Hidx Hi. apply elem_of_arange in Hidx. nia. }
  assert (∀ Hne : idxs ≠ [], len x ≤ len s →
            _build_embed_series s idxs m tau
            = Ok ((λ idx, window s tau idx (Z.to_nat (m - 1))) <$> idxs)) as Hok.
  { intros Hne Hlen. apply build_embed_series_window;
      solve [exact Hm | exact Hne | apply arange_in_bounds; lia]. }
  split; [|exact Hok].
  intros X_embed HX r idx c Hr Hc.
  destruct (build_embed_series_cases x s m tau_x tau_y tau Hm Hx Hy Htau X_embed HX)
    as [Hne Hlen].
  rewrite Hok in HX; [|apply arange_nonempty, Hne|exact Hlen].
  injection HX as <-.
  pose proof (arange_in_bounds x s m tau_x tau_y tau Hm Hpos Hmax Hlen idx (m - 1 - c)
                (list_elem_of_lookup_2 _ _ _ Hr)) as Hb.
  specialize (Hb ltac:(lia)).
  exists (nth (Z.to_nat (idx - (m - 1 - c) * tau)) s 0%float).
  split; [|split; [lia|]].
  - rewrite list_lookup_fmap. fold idxs. rewrite Hr. cbn.
    rewrite window_lookup by lia.
    replace (Z.of_nat (Z.to_nat (m - 1)) - Z.of_nat (Z.to_nat c)) with (m - 1 - c) by lia.
    reflexivity.
  - destruct (lookup_lt_is_Some_2 s (Z.to_nat (idx - (m - 1 - c) * tau))) as [v Hv].
    { unfold len in Hb. lia. }
    rewrite Hv. f_equal. symmetry. apply nth_lookup_Some with (d := 0%float), Hv.
Qed.

(** The conditions of C10 hold for the ten samples of C5. *)
Lemma build_embed_series_no_wraparound_witness :
  let idxs := NumPy.arange ((2 - 1) * Z.max 1 1) (len xs10) in
  (∀ idx i, idx ∈ idxs → 0 ≤ i ≤ 2 - 1 → 0 ≤ idx - i * 1)
  ∧ (∀ X_embed, _build_embed_series xs10 idxs 2 1 = Ok X_embed →
       ∀ (r : nat) (idx c : Z), idxs !! r = Some idx → 0 ≤ c < 2 →
         ∃ v, X_embed !! r ≫= (λ row, row !! Z.to_nat c) = Some v
              ∧ 0 ≤ idx - (2 - 1 - c) * 1
              ∧ xs10 !! Z.to_nat (idx - (2 - 1 - c) * 1) = Some v)
  ∧ (idxs ≠ [] → len xs10 ≤ len xs10 →
       _build_embed_series xs10 idxs 2 1
       = Ok ((λ idx, window xs10 1 idx (Z.to_nat (2 - 1))) <$> idxs)).
Proof.
  apply (build_embed_series_no_wraparound xs10 xs10 2 1 1 1); solve [lia | left; reflexivity].
Defined.

(** The call in a world, against the function of the two arrays. *)
Lemma interp_take (p : nat) (idxs : list Z) (w : Interp.world) :
  Interp.take p idxs w = (NumPy.take (Interp.arrays w p) idxs, w).
Proof. reflexivity. Qed.

Lemma interp_embed_loop (p : nat) (idxs : list Z) (tau : Z) (l : list Z)
    (w : Interp.world) :
  ∀ (acc : Interp.run (list (list float))) (acc' : result (list (list float))),
    acc w = (acc', w) →
    foldl (λ (acc : Interp.run (list (list float))) (i : Z),
             X_embed ← acc;
             col ← Interp.take p ((λ idx, idx - i * tau) <$> idxs);
             mret (NumPy.c_ col X_embed)) acc l w
    = (foldl (λ (acc : result (list (list float))) (i : Z),
                X_embed ← acc;
                col ← NumPy.take (Interp.arrays w p) ((λ idx, idx - i * tau) <$> idxs);
                mret (NumPy.c_ col X_embed)) acc' l, w).
Proof.
  induction l as [|i l IH]; intros acc acc' Hacc; [exact Hacc|].
  cbn [foldl]. apply IH.
  unfold mbind at 1, Interp.run_bind, Interp.bind. rewrite Hacc.
  destruct acc' as [X|e]; [|reflexivity].
  unfold mbind at 1, Interp.run_bind, Interp.bind. rewrite interp_take.
  cbn [mbind result_bind bind].
  destruct (NumPy.take _ _) as [col|e]; reflexivity.
Qed.

Lemma interp_build_embed_series (p : nat) (idxs : list Z) (m tau : Z)
    (w : Interp.world) :
  Interp._build_embed_series p idxs m tau w
  = (_build_embed_series (Interp.arrays w p) idxs m tau, w).
Proof.
  unfold Interp._build_embed_series, _build_embed_series.
  unfold mbind at 1, Interp.run_bind, Interp.bind. rewrite interp_take.
  destruct (NumPy.take (Interp.arrays w p) idxs) as [X0|e]; [|reflexivity].
  unfold mbind at 1, Interp.run_bind, Interp.bind.
  rewrite (interp_embed_loop p idxs tau (range 1 m) w _ (Ok ((λ v, [v]) <$> X0)))
    by reflexivity.
  cbn [mbind result_bind bind].
  destruct (foldl _ _ _) as [X|e]; reflexivity.
Qed.

Lemma interp_continuously_symbolize (px py : nat) (m tau_x tau_y : Z)
    (w : Interp.world) :
  Interp.continuously_symbolize px py m tau_x tau_y w
  = (continuously_symbolize (Interp.arrays w px) (Interp.arrays w py) m tau_x tau_y, w).
Proof.
  unfold Interp.continuously_symbolize, continuously_symbolize.
  unfold mbind at 1, Interp.run_bind, Interp.bind. cbn [Interp.load].
  unfold mbind at 1, Interp.run_bind, Interp.bind.
  rewrite interp_build_embed_series.
  destruct (_build_embed_series (Interp.arrays w px) _ m tau_x) as [X_embed|e];
    [|reflexivity].
  unfold mbind at 1, Interp.run_bind, Interp.bind.
  rewrite interp_build_embed_series.
  destruct (_build_embed_series (Interp.arrays w py) _ m tau_y) as [Y_embed|e];
    [|reflexivity].
  cbn [mbind result_bind bind].
  unfold mbind at 1, Interp.run_bind, Interp.bind, Interp.lift.
  destruct (mapM _ _) as [X|e]; [|reflexivity].
  cbn [bind]. unfold mbind at 1, Interp.run_bind, Interp.bind.
  destruct (mapM _ _) as [Y|e]; reflexivity.
Qed.

(** C9: a call reads the two arrays and nothing else, and changes
    nothing. Run in any world, [continuously_symbolize] on the arrays at
    [px] and [py] gives what the function of their contents gives, and
    leaves every array and the random generator as they were. So a second
    call right after the first gives the same result, and so does a call
    in any other world that holds the same two arrays, whatever was run
    before. *)
Theorem continuously_symbolize_repeatable (px py : nat) (m tau_x tau_y : Z) :
  let call := Interp.continuously_symbolize px py m tau_x tau_y in
  (∀ w, call w
        = (continuously_symbolize (Interp.arrays w px) (Interp.arrays w py)
             m tau_x tau_y, w))
  ∧ (∀ w, (call w).2 = w ∧ (call (call w).2).1 = (call w).1)
  ∧ (∀ w w',
       Interp.arrays w px = Interp.arrays w' px →
       Interp.arrays w py = Interp.arrays w' py →
       (call w).1 = (call w').1).
Proof.
  intros call. subst call. split; [|split].
  - intros w. apply interp_continuously_symbolize.
  - intros w. rewrite !interp_continuously_symbolize. split; reflexivity.
  - intros w w' Hx Hy. rewrite !interp_continuously_symbolize. cbn [fst].
    rewrite Hx, Hy. reflexivity.
Qed.

(** C9 on the call of C5: after a first call, in a world with another
    generator state, the call returns the symbols of the first call. *)
Lemma continuously_symbolize_repeatable_witness :
  (Interp.continuously_symbolize 0 1 2 1 1 (world_of xs10 xs10 7)).1
  = (Interp.continuously_symbolize 0 1 2 1 1 (world_of xs10 xs10 0)).1.
Proof.
  destruct (continuously_symbolize_repeatable 0 1 2 1 1) as (_ & _ & Hworld).
  apply Hworld; reflexivity.
Defined.

(** The world is observed: once the array at [px] is written in place,
    the same call returns other symbols; and a computation that draws
    from the generator does not leave the world as it was. *)
Lemma interp_store_is_seen :
  (Interp.continuously_symbolize 0 1 2 1 1 (world_of xs10 xs10 0)).1
  ≠ (Interp.continuously_symbolize 0 1 2 1 1
       (Interp.store 0 (reverse xs10) (world_of xs10 xs10 0)).2).1
  ∧ (Interp.draw (world_of xs10 xs10 0)).2 ≠ world_of xs10 xs10 0.
Proof.
  rewrite !interp_continuously_symbolize. split.
  - vm_compute. congruence.
  - vm_compute. congruence.
Qed.

(** ** The claims on [parse_peaks] *)

(** C1, where it fails: with fewer than ten lags the flag is not computed
    from the first and last [floor(len/10)] values. For the lags [0,1,2],
    means [0, 1e-200, 0], [ci_bg_ub = 0] and [prominence = 0] the peak at
    lag 1 is flagged significant, while the criterion on the (empty) edge
    sample is false; for the six-lag curve of C7 the sample used is the
    whole curve and the edge sample is empty. *)
Theorem parse_peaks_signif_short_grid :
  parse_peaks 1 [0; 1; 2] tiny3 0%float None None (Some 0%float)
  = Ok (Peaks [1] [1] [1e-200%float] [0%float] [true])
  ∧ signif_criterion (edge_sample (Z.to_nat (len [0; 1; 2] / 10)) tiny3.*1)
      0%float 1e-200%float = false
  ∧ background_series lags6 te6 = te6
  ∧ edge_sample (Z.to_nat (len lags6 / 10)) te6 = [].
Proof. repeat split; vm_compute; reflexivity. Qed.

(** C3, where it fails: for the six lags 0..5 ([_n = 0]) and the means
    [0.1, 0.1, 0.9, 0.2, 0.1, 0.1] the reference sample is the whole list
    of means, not the empty list, and its mean (about 0.25) and standard
    deviation (about 0.29) are numbers, not [nan] as those of an empty
    sample are. *)
Theorem background_series_short_grid_whole :
  len lags6 < 10 ∧ len lags6 / 10 = 0
  ∧ background_series lags6 te6 = te6
  ∧ background_series lags6 te6 ≠ []
  ∧ PrimFloat.is_nan (NumPy.mean (background_series lags6 te6)) = false
  ∧ PrimFloat.is_nan (NumPy.std (background_series lags6 te6)) = false
  ∧ PrimFloat.ltb 0.24%float (NumPy.mean (background_series lags6 te6)) = true
  ∧ PrimFloat.ltb (NumPy.mean (background_series lags6 te6)) 0.26%float = true
  ∧ PrimFloat.ltb 0.29%float (NumPy.std (background_series lags6 te6)) = true
  ∧ PrimFloat.ltb (NumPy.std (background_series lags6 te6)) 0.30%float = true
  ∧ PrimFloat.is_nan (NumPy.mean []) = true
  ∧ PrimFloat.is_nan (NumPy.std []) = true.
Proof.
  split; [vm_compute; reflexivity|]. split; [reflexivity|].
  rewrite background_series_short_grid by (vm_compute; reflexivity).
  split; [reflexivity|]. split; [discriminate|].
  repeat split; vm_compute; reflexivity.
Qed.

(** C7: for the lags [0,1,2,3,4,5], the means [0.1, 0.1, 0.9, 0.2, 0.1, 0.1]
    with any standard deviations, [ci_bg_ub = 0.3], the default
    configuration and any positive [tau_x], exactly one peak is returned:
    index 2, lag 2, strength 0.9 (with the standard deviation given for
    that lag; it is not flagged significant). *)
Theorem parse_peaks_single_peak (tau_x : Z) (s0 s1 s2 s3 s4 s5 : float) :
  0 < tau_x →
  parse_peaks tau_x [0; 1; 2; 3; 4; 5]
    [(0.1, s0); (0.1, s1); (0.9, s2); (0.2, s3); (0.1, s4); (0.1, s5)]%float
    0.3%float None None None
  = Ok (Peaks [2] [2] [0.9%float] [s2] [false]).
Proof.
  intros Htau. unfold parse_peaks, SciPy.find_peaks. cbn [default from_option id].
  destruct (Z.ltb_spec (2 * tau_x) 1) as [?|_]; [lia|].
  vm_compute. reflexivity.
Qed.

(** C7 with [tau_x = 1] and six standard deviations. *)
Lemma parse_peaks_single_peak_witness :
  parse_peaks 1 [0; 1; 2; 3; 4; 5]
    [(0.1, 0.05); (0.1, 0.04); (0.9, 0.03); (0.2, 0.02); (0.1, 0.01); (0.1, 0.06)]%float
    0.3%float None None None
  = Ok (Peaks [2] [2] [0.9%float] [0.03%float] [false]).
Proof. apply (parse_peaks_single_peak 1); lia. Defined.

(** ** Further properties of [parse_peaks] *)

Lemma mapM_getitem_beyond {A : Type} (l : list A) (idxs : list Z) (idx : Z) :
  idx ∈ idxs → len l ≤ idx → mapM (getitem l) idxs = Raise IndexError.
Proof.
  intros Hidx Hlen.
  induction idxs as [|k idxs IH]; [apply elem_of_nil in Hidx as []|].
  cbn [mapM]. apply elem_of_cons in Hidx as [<-|Hidx].
  - rewrite (getitem_beyond l idx Hlen). reflexivity.
  - rewrite (IH Hidx). unfold getitem.
    destruct ((0 <=? (if k <? 0 then k + len l else k))
              && ((if k <? 0 then k + len l else k) <? len l)); [|reflexivity].
    destruct (l !! Z.to_nat (if k <? 0 then k + len l else k)); reflexivity.
Qed.

(** X1: whenever [parse_peaks] returns, its five collections are aligned:
    the lag, the strength and the standard deviation at each position are
    the entries of [td_lags] and of the two columns of [td_te_info] at the
    peak index of that position, and all five have one length. *)
Theorem parse_peaks_aligned (tau_x : Z) (td_lags : list Z)
    (td_te_info : list (float * float)) (ci_bg_ub : float)
    (thres : option float) (distance : option Z) (prominence : option float)
    (r : peaks) :
  parse_peaks tau_x td_lags td_te_info ci_bg_ub thres distance prominence = Ok r →
  Forall2 (λ idx tau, getitem td_lags idx = Ok tau) (peak_idxs r) (peak_taus r)
  ∧ Forall2 (λ idx v, getitem td_te_info.*1 idx = Ok v) (peak_idxs r) (peak_strengths r)
  ∧ Forall2 (λ idx v, getitem td_te_info.*2 idx = Ok v) (peak_idxs r) (peak_stds r)
  ∧ length (peak_taus r) = length (peak_idxs r)
  ∧ length (peak_strengths r) = length (peak_idxs r)
  ∧ length (peak_stds r) = length (peak_idxs r)
  ∧ length (peak_signifs r) = length (peak_idxs r).
Proof.
  unfold parse_peaks. intros Hr.
  destruct (SciPy.find_peaks _ _ _ _ _) as [idxs|e]; cbn in Hr; [|discriminate].
  destruct (Z.eqb_spec (len idxs) 0) as [Hnone|_].
  { injection Hr as <-. cbn.
    destruct idxs; [|discriminate]. repeat split; constructor. }
  destruct (mapM (getitem td_lags) idxs) as [taus|e] eqn:Ht; cbn in Hr; [|discriminate].
  destruct (mapM (getitem td_te_info.*1) idxs) as [strengths|e] eqn:Hs;
    cbn in Hr; [|discriminate].
  destruct (mapM (getitem td_te_info.*2) idxs) as [stds|e] eqn:Hd;
    cbn in Hr; [|discriminate].
  destruct (mapM (peak_signif td_lags td_te_info.*1 ci_bg_ub) idxs) as [flags|e] eqn:Hf;
    cbn in Hr; [|discriminate].
  injection Hr as <-. cbn.
  apply mapM_Ok_inv in Ht, Hs, Hd, Hf.
  pose proof (Forall2_length _ _ _ Ht). pose proof (Forall2_length _ _ _ Hs).
  pose proof (Forall2_length _ _ _ Hd). pose proof (Forall2_length _ _ _ Hf).
  repeat split; solve [assumption | lia].
Qed.

(** X1 on the six-lag curve of C7. *)
Lemma parse_peaks_aligned_witness :
  Forall2 (λ idx tau, getitem lags6 idx = Ok tau) [2] [2]
  ∧ Forall2 (λ idx v, getitem (zip te6 te6).*1 idx = Ok v) [2] [0.9%float]
  ∧ Forall2 (λ idx v, getitem (zip te6 te6).*2 idx = Ok v) [2] [0.9%float]
  ∧ length [2] = length [2]
  ∧ length [0.9%float] = length [2]
  ∧ length [0.9%float] = length [2]
  ∧ length [false] = length [2].
Proof.
  apply (parse_peaks_aligned 1 lags6 (zip te6 te6) 0.3%float None None None
           (Peaks [2] [2] [0.9%float] [0.9%float] [false])).
  vm_compute. reflexivity.
Defined.

(** X2 on twelve lags: one peak of strength 0.5 over a flat background. *)
Lemma parse_peaks_signifs_long_grid_witness :
  Forall2 (λ strength flag,
             flag = signif_criterion
                      (edge_sample (Z.to_nat (len lags12 / 10)) te12.*1)
                      0.3%float strength)
          [0.5%float] [true].
Proof.
  apply (parse_peaks_signifs_long_grid 1 lags12 te12 0.3%float None None None
           (Peaks [2] [2] [0.5%float] [0.02%float] [true])).
  - vm_compute. congruence.
  - vm_compute. reflexivity.
Defined.

(** X3: at every grid length, a peak that [parse_peaks] flags significant
    has a strength above [ci_bg_ub]: the flag at a position is true only if
    [ci_bg_ub < strength] holds for the strength at that position. *)
Theorem parse_peaks_significant_above_ci (tau_x : Z) (td_lags : list Z)
    (td_te_info : list (float * float)) (ci_bg_ub : float)
    (thres : option float) (distance : option Z) (prominence : option float)
    (r : peaks) (k : nat) (strength : float) :
  parse_peaks tau_x td_lags td_te_info ci_bg_ub thres distance prominence = Ok r →
  peak_strengths r !! k = Some strength →
  peak_signifs r !! k = Some true →
  PrimFloat.ltb ci_bg_ub strength = true.
Proof.
  intros Hr Hs Hf. apply parse_peaks_signifs in Hr.
  destruct (Forall2_lookup_l _ _ _ _ _ Hr Hs) as (flag & Hflag & Heq).
  rewrite Hf in Hflag. injection Hflag as <-.
  unfold signif_criterion in Heq. symmetry in Heq.
  apply andb_true_iff in Heq as [Hci _]. exact Hci.
Qed.

(** X3 on the twelve lags of X2. *)
Lemma parse_peaks_significant_above_ci_witness :
  PrimFloat.ltb 0.3%float 0.5%float = true.
Proof.
  apply (parse_peaks_significant_above_ci 1 lags12 te12 0.3%float None None None
           (Peaks [2] [2] [0.5%float] [0.02%float] [true]) 0%nat 0.5%float).
  - vm_compute. reflexivity.
  - reflexivity.
  - reflexivity.
Defined.

(** X4: [parse_peaks] does not compare the lengths of [td_lags] and
    [td_te_info]; when the peak finder returns an index that lies beyond
    the end of [td_lags], the call raises [IndexError]. *)
Theorem parse_peaks_lags_too_short (tau_x : Z) (td_lags : list Z)
    (td_te_info : list (float * float)) (ci_bg_ub : float)
    (thres : option float) (distance : option Z) (prominence : option float)
    (idxs : list Z) (idx : Z) :
  SciPy.find_peaks td_te_info.*1 (default ci_bg_ub thres)
    (default (2 * tau_x) distance) (default 0.01%float prominence)
    (Z.max 2 (len td_lags / 2)) = Ok idxs →
  idx ∈ idxs → len td_lags ≤ idx →
  parse_peaks tau_x td_lags td_te_info ci_bg_ub thres distance prominence
  = Raise IndexError.
Proof.
  intros Hfind Hidx Hlen. unfold parse_peaks. rewrite Hfind.
  cbn [mbind result_bind bind].
  destruct (Z.eqb_spec (len idxs) 0) as [Hnone|_].
  { destruct idxs; [apply elem_of_nil in Hidx as []|discriminate]. }
  rewrite (mapM_getitem_beyond td_lags idxs idx Hidx Hlen). reflexivity.
Qed.

(** X4 with two lags for the six means of C7: the peak at index 2 has no
    lag. *)
Lemma parse_peaks_lags_too_short_witness :
  parse_peaks 1 [0; 1] (zip te6 te6) 0.3%float None None None = Raise IndexError.
Proof.
  apply (parse_peaks_lags_too_short 1 [0; 1] (zip te6 te6) 0.3%float None None None
           [2] 2).
  - vm_compute. reflexivity.
  - apply list_elem_of_here.
  - vm_compute. congruence.
Defined.

(** ** Further properties of [continuously_symbolize] *)

Lemma pattern_dict_is_Some (m : Z) (s : list float) (tau idx : Z) :
  1 ≤ m →
  ∃ v, pattern_dict m !! rank_pattern s tau m idx = Some v ∧ 0 ≤ v < factorial m.
Proof.
  intros Hm.
  destruct (symbol_of_row m (window s tau idx (Z.to_nat (m - 1)))) as (v & Hv & Hrange).
  { unfold len. rewrite length_window. lia. }
  exists v. split; [|exact Hrange].
  unfold dict_getitem in Hv. unfold pattern_dict, rank_pattern.
  destruct (dict_of_patterns _ !! _) as [v'|]; [|discriminate].
  injection Hv as <-. reflexivity.
Qed.

Lemma symbols_of_windows (m : Z) (s : list float) (tau : Z) (idxs : list Z) :
  1 ≤ m →
  mapM (dict_getitem
          (dict_of_patterns (Itertools.permutations ((λ k, k + 1) <$> NumPy.arange 0 m))))
       ((λ row, (λ k, k + 1) <$> NumPy.argsort row)
          <$> ((λ idx, window s tau idx (Z.to_nat (m - 1))) <$> idxs))
  = Ok (symbol_at s tau m <$> idxs).
Proof.
  intros Hm. rewrite <- list_fmap_compose.
  rewrite (mapM_Ok _ (λ p, default 0 (pattern_dict m !! p))).
  - rewrite <- list_fmap_compose. reflexivity.
  - apply Forall_fmap, Forall_forall. intros idx _.
    change (dict_getitem (pattern_dict m) (rank_pattern s tau m idx)
            = Ok (default 0 (pattern_dict m !! rank_pattern s tau m idx))).
    destruct (pattern_dict_is_Some m s tau idx Hm) as (v & Hv & _).
    unfold dict_getitem. rewrite Hv. reflexivity.
Qed.

(** The result of a call whose accesses are all in bounds: one symbol per
    valid index for either series. *)
Lemma continuously_symbolize_eval (x y : list float) (m tau_x tau_y : Z) :
  1 ≤ m → 1 ≤ tau_x → 1 ≤ tau_y →
  (m - 1) * Z.max tau_x tau_y < len x → len x ≤ len y →
  continuously_symbolize x y m tau_x tau_y
  = Ok (symbol_at x tau_x m <$> NumPy.arange ((m - 1) * Z.max tau_x tau_y) (len x),
        symbol_at y tau_y m <$> NumPy.arange ((m - 1) * Z.max tau_x tau_y) (len x)).
Proof.
  intros Hm Hx Hy Hne Hlen. unfold continuously_symbolize.
  set (idxs := NumPy.arange ((m - 1) * Z.max tau_x tau_y) (len x)).
  rewrite (build_embed_series_window x idxs m tau_x);
    [|exact Hm|apply arange_nonempty, Hne|apply arange_in_bounds; lia].
  cbn [mbind result_bind bind].
  rewrite (build_embed_series_window y idxs m tau_y);
    [|exact Hm|apply arange_nonempty, Hne|apply arange_in_bounds; lia].
  cbn [mbind result_bind bind].
  rewrite !symbols_of_windows by exact Hm. reflexivity.
Qed.

Lemma window_ext (s s' : list float) (tau idx : Z) (k : nat) :
  (∀ j, 0 ≤ j ≤ Z.of_nat k →
        nth (Z.to_nat (idx - j * tau)) s 0%float
        = nth (Z.to_nat (idx - j * tau)) s' 0%float) →
  window s tau idx k = window s' tau idx k.
Proof.
  induction k as [|k IH]; intros H.
  - cbn [window]. specialize (H 0 ltac:(lia)).
    replace (idx - 0 * tau) with idx in H by lia. rewrite H. reflexivity.
  - cbn [window]. rewrite (H (Z.of_nat (S k))) by lia. f_equal.
    apply IH. intros j Hj. apply H. lia.
Qed.

Lemma symbol_at_ext (s s' : list float) (tau m idx : Z) :
  1 ≤ m →
  (∀ j, 0 ≤ j ≤ m - 1 →
        nth (Z.to_nat (idx - j * tau)) s 0%float
        = nth (Z.to_nat (idx - j * tau)) s' 0%float) →
  symbol_at s tau m idx = symbol_at s' tau m idx.
Proof.
  intros Hm H. unfold symbol_at, rank_pattern.
  rewrite (window_ext s s' tau idx (Z.to_nat (m - 1))); [reflexivity|].
  intros j Hj. apply H. lia.
Qed.

Lemma nth_take_lt {A : Type} (l : list A) (n i : nat) (d : A) :
  (i < n)%nat → nth i (take n l) d = nth i l d.
Proof.
  revert n i. induction l as [|a l IH]; intros n i Hi.
  - rewrite take_nil. reflexivity.
  - destruct n as [|n]; [lia|]. destruct i as [|i]; [reflexivity|].
    cbn. apply IH. lia.
Qed.

(** X5: with [m], [tau_x], [tau_y] at least 1 and a [y] at least as long as
    [x], only the first [len(x)] samples of [y] are used: the call gives
    the same result (symbols or exception) on [y] cut to the length of [x]. *)
Theorem continuously_symbolize_y_tail_unused (x y : list float) (m tau_x tau_y : Z) :
  1 ≤ m → 1 ≤ tau_x → 1 ≤ tau_y → len x ≤ len y →
  continuously_symbolize x y m tau_x tau_y
  = continuously_symbolize x (take (length x) y) m tau_x tau_y.
Proof.
  intros Hm Hx Hy Hlen.
  destruct (Z.lt_ge_cases ((m - 1) * Z.max tau_x tau_y) (len x)) as [Hne|Hempty].
  - assert (len x ≤ len (take (length x) y)) as Hlen'.
    { unfold len in *. rewrite length_take. lia. }
    rewrite !continuously_symbolize_eval by assumption.
    f_equal. f_equal. apply list_fmap_ext. intros i idx Hidx.
    apply list_elem_of_lookup_2, elem_of_arange in Hidx.
    apply symbol_at_ext; [exact Hm|]. intros j Hj. symmetry. apply nth_take_lt.
    unfold len in *. nia.
  - rewrite !continuously_symbolize_empty_range by lia. reflexivity.
Qed.

(** X5 on the ten samples of C5 with three more samples on [y]. *)
Lemma continuously_symbolize_y_tail_unused_witness :
  continuously_symbolize xs10 (xs10 ++ [0; 0; 0]%float) 2 1 1
  = continuously_symbolize xs10 (take (length xs10) (xs10 ++ [0; 0; 0]%float)) 2 1 1.
Proof.
  apply (continuously_symbolize_y_tail_unused xs10 (xs10 ++ [0; 0; 0]%float) 2 1 1);
    vm_compute; congruence.
Defined.

(** X6: symbols are not revised by later samples. When a call returns
    [(X, Y)], the call on the same series with more samples appended
    returns [X] and [Y] followed by one new symbol per appended sample of
    [x] (for [m], [tau_x], [tau_y] at least 1 and a [y] that stays at least
    as long as [x]). *)
Theorem continuously_symbolize_append (x y x' y' : list float) (m tau_x tau_y : Z) :
  1 ≤ m → 1 ≤ tau_x → 1 ≤ tau_y →
  (m - 1) * Z.max tau_x tau_y < len x → len x ≤ len y →
  len (x ++ x') ≤ len (y ++ y') →
  ∃ X Y X' Y',
    continuously_symbolize x y m tau_x tau_y = Ok (X, Y)
    ∧ continuously_symbolize (x ++ x') (y ++ y') m tau_x tau_y = Ok (X ++ X', Y ++ Y')
    ∧ len X' = len x' ∧ len Y' = len x'.
Proof.
  intros Hm Hx Hy Hne Hlen Hlen'.
  set (start := (m - 1) * Z.max tau_x tau_y) in *.
  assert (len (x ++ x') = len x + len x') as Happ.
  { unfold len. rewrite length_app. lia. }
  assert (NumPy.arange start (len (x ++ x'))
          = NumPy.arange start (len x) ++ NumPy.arange (len x) (len (x ++ x'))) as Hsplit.
  { unfold NumPy.arange.
    replace (len (x ++ x') - start) with ((len x - start) + (len (x ++ x') - len x)) by lia.
    rewrite seqZ_app by (unfold len in *; lia). do 2 f_equal; lia. }
  exists (symbol_at x tau_x m <$> NumPy.arange start (len x)),
         (symbol_at y tau_y m <$> NumPy.arange start (len x)),
         (symbol_at (x ++ x') tau_x m <$> NumPy.arange (len x) (len (x ++ x'))),
         (symbol_at (y ++ y') tau_y m <$> NumPy.arange (len x) (len (x ++ x'))).
  split; [apply continuously_symbolize_eval; assumption|].
  split.
  - rewrite continuously_symbolize_eval;
      [|assumption..|fold start; unfold len in *; lia|assumption].
    fold start. rewrite Hsplit, !fmap_app. f_equal. f_equal.
    + f_equal. apply list_fmap_ext. intros i idx Hidx.
      apply list_elem_of_lookup_2, elem_of_arange in Hidx.
      apply symbol_at_ext; [exact Hm|]. intros j Hj. apply app_nth1. unfold len in *. nia.
    + f_equal. apply list_fmap_ext. intros i idx Hidx.
      apply list_elem_of_lookup_2, elem_of_arange in Hidx.
      apply symbol_at_ext; [exact Hm|]. intros j Hj. apply app_nth1. unfold len in *. nia.
  - pose proof (length_arange (len x) (len (x ++ x'))) as Hnew.
    unfold len in *. rewrite !length_fmap. lia.
Qed.

(** X6 on the first five samples of C5 and the five that follow. *)
Lemma continuously_symbolize_append_witness :
  ∃ X Y X' Y',
    continuously_symbolize (take 5 xs10) (take 5 xs10) 2 1 1 = Ok (X, Y)
    ∧ continuously_symbolize (take 5 xs10 ++ drop 5 xs10) (take 5 xs10 ++ drop 5 xs10) 2 1 1
      = Ok (X ++ X', Y ++ Y')
    ∧ len X' = len (drop 5 xs10) ∧ len Y' = len (drop 5 xs10).
Proof.
  apply (continuously_symbolize_append (take 5 xs10) (take 5 xs10)
           (drop 5 xs10) (drop 5 xs10) 2 1 1); vm_compute; congruence.
Defined.

(** X7: for [m = 2] the symbol at a valid index [idx] is 1 exactly when
    the sample at [idx] sorts before the sample [tau] places earlier (the
    pair falls), and 0 otherwise (the pair rises or is a tie); this holds
    for either series with its own delay, for [tau_x], [tau_y] at least 1,
    a valid index and a [y] at least as long as [x]. *)
Theorem continuously_symbolize_pair_rule (x y : list float) (tau_x tau_y : Z) :
  1 ≤ tau_x → 1 ≤ tau_y → Z.max tau_x tau_y < len x → len x ≤ len y →
  continuously_symbolize x y 2 tau_x tau_y
  = Ok ((λ idx, if NumPy.less (nth (Z.to_nat idx) x 0%float)
                     (nth (Z.to_nat (idx - tau_x)) x 0%float)
                then 1 else 0) <$> NumPy.arange (Z.max tau_x tau_y) (len x),
        (λ idx, if NumPy.less (nth (Z.to_nat idx) y 0%float)
                     (nth (Z.to_nat (idx - tau_y)) y 0%float)
                then 1 else 0) <$> NumPy.arange (Z.max tau_x tau_y) (len x)).
Proof.
  intros Hx Hy Hne Hlen.
  assert (∀ (s : list float) (tau idx : Z),
            symbol_at s tau 2 idx
            = if NumPy.less (nth (Z.to_nat idx) s 0%float)
                   (nth (Z.to_nat (idx - tau)) s 0%float)
              then 1 else 0) as Hrule.
  { intros s tau idx. unfold symbol_at, rank_pattern, NumPy.argsort.
    change (Z.to_nat (2 - 1)) with 1%nat. cbn [window].
    replace (idx - Z.of_nat 1 * tau) with (idx - tau) by lia.
    cbn [imap foldl NumPy.insert_index snd].
    destruct (NumPy.less _ _); vm_compute; reflexivity. }
  rewrite continuously_symbolize_eval by lia.
  replace ((2 - 1) * Z.max tau_x tau_y) with (Z.max tau_x tau_y) by lia.
  f_equal. f_equal; apply list_fmap_ext; intros i idx _; apply Hrule.
Qed.

(** X7 on the ten samples of C5. *)
Lemma continuously_symbolize_pair_rule_witness :
  continuously_symbolize xs10 xs10 2 1 1
  = Ok ((λ idx, if NumPy.less (nth (Z.to_nat idx) xs10 0%float)
                     (nth (Z.to_nat (idx - 1)) xs10 0%float)
                then 1 else 0) <$> NumPy.arange (Z.max 1 1) (len xs10),
        (λ idx, if NumPy.less (nth (Z.to_nat idx) xs10 0%float)
                     (nth (Z.to_nat (idx - 1)) xs10 0%float)
                then 1 else 0) <$> NumPy.arange (Z.max 1 1) (len xs10)).
Proof.
  apply (continuously_symbolize_pair_rule xs10 xs10 1 1); vm_compute; congruence.
Defined.

(** X8: the two series are treated alike. For series of one length (and
    [m], [tau_x], [tau_y] at least 1, with a valid index), exchanging
    [(x, tau_x)] with [(y, tau_y)] exchanges the two returned sequences. *)
Theorem continuously_symbolize_exchange (x y : list float) (m tau_x tau_y : Z) :
  1 ≤ m → 1 ≤ tau_x → 1 ≤ tau_y →
  (m - 1) * Z.max tau_x tau_y < len x → len x = len y →
  ∃ X Y,
    continuously_symbolize x y m tau_x tau_y = Ok (X, Y)
    ∧ continuously_symbolize y x m tau_y tau_x = Ok (Y, X).
Proof.
  intros Hm Hx Hy Hne Hlen.
  exists (symbol_at x tau_x m <$> NumPy.arange ((m - 1) * Z.max tau_x tau_y) (len x)),
         (symbol_at y tau_y m <$> NumPy.arange ((m - 1) * Z.max tau_x tau_y) (len x)).
  split; [apply continuously_symbolize_eval; lia|].
  rewrite continuously_symbolize_eval;
    [|lia|lia|lia|rewrite (Z.max_comm tau_y tau_x); lia|lia].
  rewrite (Z.max_comm tau_y tau_x), <- Hlen. reflexivity.
Qed.

(** X8 on the ten samples of C5 and their reversal. *)
Lemma continuously_symbolize_exchange_witness :
  ∃ X Y,
    continuously_symbolize xs10 (reverse xs10) 2 1 2 = Ok (X, Y)
    ∧ continuously_symbolize (reverse xs10) xs10 2 2 1 = Ok (Y, X).
Proof.
  apply (continuously_symbolize_exchange xs10 (reverse xs10) 2 1 2);
    vm_compute; congruence.
Defined.

Section picks.
Context {A : Type}.
Implicit Types l p : list A.

Lemma picks_perm l a r : (a, r) ∈ Itertools.picks l → l ≡ₚ a :: r.
Proof.
  revert a r. induction l as [|b l IH]; intros a r Hin; cbn [Itertools.picks] in Hin.
  - apply elem_of_nil in Hin as [].
  - apply elem_of_cons in Hin as [Heq|Hin].
    + injection Heq as -> ->. reflexivity.
    + apply list_elem_of_fmap in Hin as ([c r'] & Heq & Hin). cbn in Heq.
      injection Heq as -> ->. rewrite (IH c r' Hin). apply Permutation_swap.
Qed.

Lemma fst_picks l : (Itertools.picks l).*1 = l.
Proof.
  induction l as [|b l IH]; cbn [Itertools.picks]; [reflexivity|].
  rewrite fmap_cons. cbn [fst]. f_equal.
  rewrite <- list_fmap_compose. rewrite <- IH at 2.
  apply list_fmap_ext. intros i [c r] _. reflexivity.
Qed.

Lemma picks_fst_inj l a r1 r2 :
  NoDup l → (a, r1) ∈ Itertools.picks l → (a, r2) ∈ Itertools.picks l → r1 = r2.
Proof.
  intros Hnd H1 H2.
  apply list_elem_of_lookup in H1 as [i Hi]. apply list_elem_of_lookup in H2 as [j Hj].
  assert ((Itertools.picks l).*1 !! i = Some a) as Hi'
    by (rewrite list_lookup_fmap, Hi; reflexivity).
  assert ((Itertools.picks l).*1 !! j = Some a) as Hj'
    by (rewrite list_lookup_fmap, Hj; reflexivity).
  rewrite fst_picks in Hi', Hj'.
  pose proof (NoDup_lookup l i j a Hnd Hi' Hj') as ->. congruence.
Qed.

Lemma NoDup_picks l : NoDup l → NoDup (Itertools.picks l).
Proof. intros Hnd. apply (NoDup_fmap_1 fst). rewrite fst_picks. exact Hnd. Qed.

(** Only rearrangements of [l] are enumerated. *)
Lemma permutations_of_sound (n : nat) l p :
  length l = n → p ∈ Itertools.permutations_of n l → p ≡ₚ l.
Proof.
  revert l p. induction n as [|n IH]; intros l p Hn Hp.
  - apply nil_length_inv in Hn as ->. cbn in Hp.
    apply list_elem_of_singleton in Hp as ->. reflexivity.
  - cbn [Itertools.permutations_of] in Hp.
    apply list_elem_of_bind in Hp as ([a r] & Hp & Hin). cbn [fst snd] in Hp.
    apply list_elem_of_fmap in Hp as (p' & -> & Hp').
    pose proof (picks_perm l a r Hin) as Hl.
    rewrite Hl. apply Permutation_skip. apply IH; [|exact Hp'].
    apply Permutation_length in Hl. cbn in Hl. lia.
Qed.

(** None is enumerated twice when [l] has no repeated element. *)
Lemma NoDup_permutations_of (n : nat) l :
  length l = n → NoDup l → NoDup (Itertools.permutations_of n l).
Proof.
  revert l. induction n as [|n IH]; intros l Hn Hnd.
  - apply NoDup_singleton.
  - cbn [Itertools.permutations_of]. apply NoDup_bind.
    + intros [a1 r1] [a2 r2] q H1 H2 Hq1 Hq2. cbn [fst snd] in Hq1, Hq2.
      apply list_elem_of_fmap in Hq1 as (p1 & -> & _).
      apply list_elem_of_fmap in Hq2 as (p2 & Heq & _).
      injection Heq as -> _. f_equal. eapply picks_fst_inj; eassumption.
    + intros [a r] Hin. cbn [fst snd].
      pose proof (picks_perm l a r Hin) as Hl.
      apply (NoDup_fmap_2 (cons a)). apply IH.
      * apply Permutation_length in Hl. cbn in Hl. lia.
      * rewrite Hl in Hnd. apply NoDup_cons in Hnd as [_ Hr]. exact Hr.
    + apply NoDup_picks, Hnd.
Qed.

(** The first one enumerated is [l] itself. *)
Lemma head_permutations_of l : Itertools.permutations_of (length l) l !! 0%nat = Some l.
Proof.
  induction l as [|a l IH]; [reflexivity|].
  cbn [length Itertools.permutations_of Itertools.picks].
  rewrite bind_cons. cbn [fst snd].
  rewrite lookup_app_l.
  - rewrite list_lookup_fmap, IH. reflexivity.
  - rewrite length_fmap. apply lookup_lt_Some in IH. exact IH.
Qed.
End picks.

Lemma dict_of_patterns_fold_inv (ips : list (Z * list Z)) (d : gmap (list Z) Z)
    (p : list Z) (i : Z) :
  foldl (λ d ip, <[ip.2 := ip.1]> d) d ips !! p = Some i →
  (i, p) ∈ ips ∨ d !! p = Some i.
Proof.
  revert d. induction ips as [|[j q] ips IH] using rev_ind; intros d Hp.
  - right. exact Hp.
  - rewrite foldl_app in Hp. cbn [foldl fst snd] in Hp.
    destruct (decide (q = p)) as [->|Hne].
    + rewrite lookup_insert_eq in Hp. injection Hp as ->.
      left. apply elem_of_app. right. apply list_elem_of_here.
    + rewrite lookup_insert_ne in Hp by exact Hne.
      destruct (IH d Hp) as [Hin|Hd]; [left|right; exact Hd].
      apply elem_of_app. left. exact Hin.
Qed.

(** A symbol held by the dictionary is the position of its pattern. *)
Lemma dict_of_patterns_lookup_inv (patterns : list (list Z)) (p : list Z) (i : Z) :
  dict_of_patterns patterns !! p = Some i →
  ∃ k : nat, i = Z.of_nat k ∧ patterns !! k = Some p.
Proof.
  intros Hp. unfold dict_of_patterns in Hp.
  apply dict_of_patterns_fold_inv in Hp as [Hin|Hempty].
  - apply list_elem_of_lookup in Hin as [k Hk]. rewrite list_lookup_imap in Hk.
    destruct (patterns !! k) as [q|] eqn:Hq; [|discriminate].
    cbn in Hk. injection Hk as <- <-. exists k. split; [reflexivity|exact Hq].
  - rewrite lookup_empty in Hempty. discriminate.
Qed.

Lemma NoDup_patterns (m : Z) :
  NoDup (Itertools.permutations ((λ k, k + 1) <$> NumPy.arange 0 m)).
Proof.
  apply NoDup_permutations_of; [reflexivity|].
  assert (Inj (=) (=) (λ k : Z, k + 1)) as Hinj by (intros a b H; lia).
  apply (NoDup_fmap_2 (λ k, k + 1)). apply NoDup_seqZ.
Qed.

Lemma length_patterns (m : Z) :
  len (Itertools.permutations ((λ k, k + 1) <$> NumPy.arange 0 m)) = factorial m.
Proof.
  unfold len, Itertools.permutations, factorial.
  rewrite length_permutations_of by reflexivity.
  unfold NumPy.arange. rewrite length_fmap, length_seqZ.
  replace (m - 0) with m by lia. reflexivity.
Qed.

(** X9: the dictionary of a call is a one-to-one correspondence between
    the orderings of [1..m] and the symbols [0..m!-1]: its keys are exactly
    the rearrangements of [1, ..., m]; every symbol it holds lies in
    [0, m!); two keys never share a symbol; and every number of [0, m!) is
    the symbol of a key. *)
Theorem pattern_dict_one_to_one (m : Z) :
  (∀ p, is_Some (pattern_dict m !! p) ↔ p ≡ₚ (λ k, k + 1) <$> NumPy.arange 0 m)
  ∧ (∀ p v, pattern_dict m !! p = Some v → 0 ≤ v < factorial m)
  ∧ (∀ p q v, pattern_dict m !! p = Some v → pattern_dict m !! q = Some v → p = q)
  ∧ (∀ v, 0 ≤ v < factorial m → ∃ p, pattern_dict m !! p = Some v).
Proof.
  unfold pattern_dict.
  set (patterns := Itertools.permutations ((λ k, k + 1) <$> NumPy.arange 0 m)).
  assert (∀ p v, dict_of_patterns patterns !! p = Some v →
                 ∃ k : nat, v = Z.of_nat k ∧ patterns !! k = Some p) as Hinv
    by (intros p v; apply dict_of_patterns_lookup_inv).
  split; [|split; [|split]].
  - intros p. split.
    + intros [v Hv]. destruct (Hinv p v Hv) as (k & _ & Hk).
      apply (permutations_of_sound _ _ _ eq_refl).
      apply list_elem_of_lookup_2 in Hk. exact Hk.
    + intros Hp.
      destruct (dict_of_patterns_lookup patterns p) as (v & Hv & _); [|eauto].
      apply permutations_of_complete; [reflexivity|exact Hp].
  - intros p v Hv. destruct (Hinv p v Hv) as (k & -> & Hk).
    apply lookup_lt_Some in Hk. pose proof (length_patterns m) as Hlen.
    fold patterns in Hlen. unfold len in Hlen. lia.
  - intros p q v Hp Hq.
    destruct (Hinv p v Hp) as (k & -> & Hk). destruct (Hinv q _ Hq) as (k' & Heq & Hk').
    apply Nat2Z.inj in Heq as <-. congruence.
  - intros v Hv. pose proof (length_patterns m) as Hlen.
    fold patterns in Hlen. unfold len in Hlen.
    destruct (lookup_lt_is_Some_2 patterns (Z.to_nat v)) as [p Hp]; [lia|].
    exists p.
    destruct (dict_of_patterns_lookup patterns p) as (v' & Hv' & _).
    { apply list_elem_of_lookup_2 in Hp. exact Hp. }
    destruct (Hinv p v' Hv') as (k & -> & Hk).
    pose proof (NoDup_lookup patterns _ _ p (NoDup_patterns m) Hp Hk) as <-.
    rewrite Hv'. f_equal. lia.
Qed.

Lemma symbol_at_eq_iff (m : Z) (s1 s2 : list float) (tau1 tau2 idx1 idx2 : Z) :
  1 ≤ m →
  symbol_at s1 tau1 m idx1 = symbol_at s2 tau2 m idx2
  ↔ NumPy.argsort (window s1 tau1 idx1 (Z.to_nat (m - 1)))
    = NumPy.argsort (window s2 tau2 idx2 (Z.to_nat (m - 1))).
Proof.
  intros Hm.
  destruct (pattern_dict_is_Some m s1 tau1 idx1 Hm) as (v1 & Hv1 & _).
  destruct (pattern_dict_is_Some m s2 tau2 idx2 Hm) as (v2 & Hv2 & _).
  unfold symbol_at. rewrite Hv1, Hv2. cbn [default from_option id].
  split.
  - intros <-. unfold pattern_dict in Hv1, Hv2.
    apply dict_of_patterns_lookup_inv in Hv1 as (k & -> & Hk).
    apply dict_of_patterns_lookup_inv in Hv2 as (k' & Heq & Hk').
    apply Nat2Z.inj in Heq as <-. rewrite Hk in Hk'. injection Hk' as Heq.
    unfold rank_pattern in Heq.
    assert (Inj (=) (=) (λ k : Z, k + 1)) as Hinj by (intros a b H; lia).
    apply (inj (fmap (λ k : Z, k + 1))) in Heq. exact Heq.
  - intros Heq. unfold rank_pattern in Hv1, Hv2. rewrite Heq in Hv1. congruence.
Qed.

(** X10: a symbol stands for one rank pattern. In a returned result (for
    [m], [tau_x], [tau_y] at least 1, a valid index and a [y] at least as
    long as [x]), the symbols at two positions are equal exactly when
    [np.argsort] gives the same ordering for the two windows; this holds
    inside either sequence and between the two. *)
Theorem continuously_symbolize_same_symbol (x y : list float) (m tau_x tau_y : Z) :
  1 ≤ m → 1 ≤ tau_x → 1 ≤ tau_y →
  (m - 1) * Z.max tau_x tau_y < len x → len x ≤ len y →
  ∃ X Y,
    continuously_symbolize x y m tau_x tau_y = Ok (X, Y)
    ∧ ∀ (r1 r2 : nat) (idx1 idx2 : Z),
        NumPy.arange ((m - 1) * Z.max tau_x tau_y) (len x) !! r1 = Some idx1 →
        NumPy.arange ((m - 1) * Z.max tau_x tau_y) (len x) !! r2 = Some idx2 →
        (X !! r1 = X !! r2
         ↔ NumPy.argsort (window x tau_x idx1 (Z.to_nat (m - 1)))
           = NumPy.argsort (window x tau_x idx2 (Z.to_nat (m - 1))))
        ∧ (Y !! r1 = Y !! r2
           ↔ NumPy.argsort (window y tau_y idx1 (Z.to_nat (m - 1)))
             = NumPy.argsort (window y tau_y idx2 (Z.to_nat (m - 1))))
        ∧ (X !! r1 = Y !! r2
           ↔ NumPy.argsort (window x tau_x idx1 (Z.to_nat (m - 1)))
             = NumPy.argsort (window y tau_y idx2 (Z.to_nat (m - 1)))).
Proof.
  intros Hm Hx Hy Hne Hlen.
  set (idxs := NumPy.arange ((m - 1) * Z.max tau_x tau_y) (len x)).
  exists (symbol_at x tau_x m <$> idxs), (symbol_at y tau_y m <$> idxs).
  split; [apply continuously_symbolize_eval; assumption|].
  intros r1 r2 idx1 idx2 H1 H2.
  rewrite !list_lookup_fmap, H1, H2. cbn [fmap option_fmap option_map].
  rewrite <- !(symbol_at_eq_iff m) by exact Hm.
  repeat split; intros H; congruence.
Qed.

(** X10 on the ten samples of C5. *)
Lemma continuously_symbolize_same_symbol_witness :
  ∃ X Y,
    continuously_symbolize xs10 xs10 2 1 1 = Ok (X, Y)
    ∧ ∀ (r1 r2 : nat) (idx1 idx2 : Z),
        NumPy.arange ((2 - 1) * Z.max 1 1) (len xs10) !! r1 = Some idx1 →
        NumPy.arange ((2 - 1) * Z.max 1 1) (len xs10) !! r2 = Some idx2 →
        (X !! r1 = X !! r2
         ↔ NumPy.argsort (window xs10 1 idx1 (Z.to_nat (2 - 1)))
           = NumPy.argsort (window xs10 1 idx2 (Z.to_nat (2 - 1))))
        ∧ (Y !! r1 = Y !! r2
           ↔ NumPy.argsort (window xs10 1 idx1 (Z.to_nat (2 - 1)))
             = NumPy.argsort (window xs10 1 idx2 (Z.to_nat (2 - 1))))
        ∧ (X !! r1 = Y !! r2
           ↔ NumPy.argsort (window xs10 1 idx1 (Z.to_nat (2 - 1)))
             = NumPy.argsort (window xs10 1 idx2 (Z.to_nat (2 - 1)))).
Proof.
  apply (continuously_symbolize_same_symbol xs10 xs10 2 1 1); vm_compute; congruence.
Defined.

Lemma foldl_insert_index_sorted (L : list (Z * float)) (pk : Z * float)
    (acc : list (Z * float)) :
  sorted_after pk.2 L.*2 = true →
  foldl (λ acc vi, NumPy.insert_index vi acc) (pk :: acc) L = reverse L ++ pk :: acc.
Proof.
  revert pk acc. induction L as [|vi L IH]; intros pk acc Hs; [reflexivity|].
  cbn [fmap list_fmap sorted_after] in Hs.
  apply andb_true_iff in Hs as [Hless Hs]. apply negb_true_iff in Hless.
  cbn [foldl NumPy.insert_index]. rewrite Hless.
  rewrite (IH vi (pk :: acc) Hs), reverse_cons, <- app_assoc. reflexivity.
Qed.

(** A row in sorted order is left as it is. *)
Lemma argsort_sorted (row : list float) :
  is_sorted row = true → NumPy.argsort row = seqZ 0 (len row).
Proof.
  intros Hs.
  assert (reverse (foldl (λ acc vi, NumPy.insert_index vi acc) []
                     (imap (λ i a, (Z.of_nat i, a)) row))
          = imap (λ i a, (Z.of_nat i, a)) row) as Hsame.
  { destruct row as [|a row]; [reflexivity|].
    rewrite imap_cons. cbn [foldl NumPy.insert_index].
    rewrite foldl_insert_index_sorted.
    - rewrite reverse_app, reverse_involutive. reflexivity.
    - cbn [snd]. rewrite fmap_imap.
      rewrite (imap_ext _ (const id)) by reflexivity.
      rewrite imap_const, list_fmap_id. exact Hs. }
  unfold NumPy.argsort. rewrite Hsame, fmap_imap.
  rewrite (imap_ext _ (λ i _, Z.of_nat i)) by reflexivity.
  rewrite imap_seq_0. unfold seqZ, len. rewrite Nat2Z.id.
  apply list_fmap_ext. intros; lia.
Qed.

(** The pattern [1, ..., m] has symbol 0. *)
Lemma pattern_dict_identity (m : Z) :
  pattern_dict m !! ((λ k, k + 1) <$> NumPy.arange 0 m) = Some 0.
Proof.
  unfold pattern_dict.
  set (l := (λ k, k + 1) <$> NumPy.arange 0 m).
  destruct (dict_of_patterns_lookup (Itertools.permutations l) l) as (v & Hv & _).
  { apply permutations_of_complete; reflexivity. }
  destruct (dict_of_patterns_lookup_inv _ _ _ Hv) as (k & -> & Hk).
  pose proof (NoDup_lookup _ _ _ l (NoDup_patterns m) Hk (head_permutations_of l)) as ->.
  exact Hv.
Qed.

Lemma ascends_after_sorted (prev : float) (row : list float) :
  ascends_after prev row = true → sorted_after prev row = true.
Proof.
  revert prev. induction row as [|b row IH]; intros prev H; [reflexivity|].
  cbn [ascends_after sorted_after] in *.
  apply andb_true_iff in H as [Hless H].
  rewrite (less_asym _ _ Hless), (IH _ H). reflexivity.
Qed.

Lemma strictly_ascending_sorted (row : list float) :
  strictly_ascending row = true → is_sorted row = true.
Proof. destruct row as [|a row]; [reflexivity|]. apply ascends_after_sorted. Qed.

(** A window in sorted order has the pattern [1, ..., m], symbol 0. *)
Lemma symbol_at_sorted (m : Z) (s : list float) (tau idx : Z) :
  is_sorted (window s tau idx (Z.to_nat (m - 1))) = true →
  1 ≤ m → symbol_at s tau m idx = 0.
Proof.
  intros Hs Hm. unfold symbol_at, rank_pattern.
  rewrite (argsort_sorted _ Hs). unfold len. rewrite length_window.
  replace (Z.of_nat (S (Z.to_nat (m - 1)))) with (m - 0) by lia.
  fold (NumPy.arange 0 m). rewrite pattern_dict_identity. reflexivity.
Qed.

(** X11: a window whose samples strictly ascend (every sample sorts
    after the sample one delay earlier in the window, so no two of its
    samples are equal) gets symbol 0, in either returned sequence. *)
Theorem continuously_symbolize_ascending_window (x y : list float) (m tau_x tau_y : Z) :
  1 ≤ m → 1 ≤ tau_x → 1 ≤ tau_y →
  (m - 1) * Z.max tau_x tau_y < len x → len x ≤ len y →
  ∃ X Y,
    continuously_symbolize x y m tau_x tau_y = Ok (X, Y)
    ∧ ∀ (r : nat) (idx : Z),
        NumPy.arange ((m - 1) * Z.max tau_x tau_y) (len x) !! r = Some idx →
        (strictly_ascending (window x tau_x idx (Z.to_nat (m - 1))) = true →
         X !! r = Some 0)
        ∧ (strictly_ascending (window y tau_y idx (Z.to_nat (m - 1))) = true →
           Y !! r = Some 0).
Proof.
  intros Hm Hx Hy Hne Hlen.
  set (idxs := NumPy.arange ((m - 1) * Z.max tau_x tau_y) (len x)).
  exists (symbol_at x tau_x m <$> idxs), (symbol_at y tau_y m <$> idxs).
  split; [apply continuously_symbolize_eval; assumption|].
  intros r idx Hr. rewrite !list_lookup_fmap, Hr. cbn [fmap option_fmap option_map].
  split; intros Hs; apply strictly_ascending_sorted in Hs;
    rewrite (symbol_at_sorted _ _ _ _ Hs Hm); reflexivity.
Qed.

(** X11 on the ten samples of C5. *)
Lemma continuously_symbolize_ascending_window_witness :
  ∃ X Y,
    continuously_symbolize xs10 xs10 3 1 1 = Ok (X, Y)
    ∧ ∀ (r : nat) (idx : Z),
        NumPy.arange ((3 - 1) * Z.max 1 1) (len xs10) !! r = Some idx →
        (strictly_ascending (window xs10 1 idx (Z.to_nat (3 - 1))) = true →
         X !! r = Some 0)
        ∧ (strictly_ascending (window xs10 1 idx (Z.to_nat (3 - 1))) = true →
           Y !! r = Some 0).
Proof.
  apply (continuously_symbolize_ascending_window xs10 xs10 3 1 1); vm_compute; congruence.
Defined.

Lemma getitem_raises {A : Type} (l : list A) (i : Z) (e : exn) :
  getitem l i = Raise e → e = IndexError.
Proof.
  unfold getitem.
  destruct ((0 <=? (if i <? 0 then i + len l else i))
            && ((if i <? 0 then i + len l else i) <? len l)); [|congruence].
  destruct (l !! Z.to_nat (if i <? 0 then i + len l else i)); congruence.
Qed.

Lemma take_result (s : list float) (ks : list Z) :
  match NumPy.take s ks with
  | Ok col => length col = length ks
  | Raise e => e = IndexError
  end.
Proof.
  unfold NumPy.take. induction ks as [|k ks IH]; [reflexivity|].
  cbn [mapM]. destruct (getitem s k) as [v|e] eqn:Hk.
  - cbn. destruct (mapM (getitem s) ks) as [col|e]; cbn; [|exact IH].
    rewrite IH. reflexivity.
  - cbn. apply (getitem_raises _ _ _ Hk).
Qed.

Lemma length_c_ (col : list float) (X : list (list float)) (c : nat) :
  length col = length X → Forall (λ row, length row = c) X →
  length (NumPy.c_ col X) = length X
  ∧ Forall (λ row, length row = S c) (NumPy.c_ col X).
Proof.
  unfold NumPy.c_. intros Hlen HX. revert col Hlen.
  induction HX as [|row X Hrow _ IH]; intros col Hlen.
  - destruct col; [|discriminate]. split; [reflexivity|constructor].
  - destruct col as [|v col]; [discriminate|]. cbn in Hlen.
    destruct (IH col ltac:(lia)) as [IHlen IHrows].
    cbn [zip_with length]. split; [lia|]. constructor; [cbn; lia|exact IHrows].
Qed.

Lemma embed_loop_result (s : list float) (idxs : list Z) (tau : Z) (l : list Z) :
  ∀ (acc : result (list (list float))) (c : nat),
    match acc with
    | Ok X => length X = length idxs ∧ Forall (λ row, length row = c) X
    | Raise e => e = IndexError
    end →
    match foldl (λ (acc : result (list (list float))) (i : Z),
                   X_embed ← acc;
                   col ← NumPy.take s ((λ idx, idx - i * tau) <$> idxs);
                   mret (NumPy.c_ col X_embed)) acc l with
    | Ok X => length X = length idxs
              ∧ Forall (λ row, length row = (c + length l)%nat) X
    | Raise e => e = IndexError
    end.
Proof.
  induction l as [|i l IH]; intros acc c Hacc.
  - cbn [foldl length]. destruct acc as [X|e]; [|exact Hacc].
    rewrite Nat.add_0_r. exact Hacc.
  - cbn [foldl length]. replace (c + S (length l))%nat with (S c + length l)%nat by lia.
    apply IH. destruct acc as [X|e]; cbn [mbind result_bind bind]; [|exact Hacc].
    destruct Hacc as [Hlen Hrows].
    pose proof (take_result s ((λ idx, idx - i * tau) <$> idxs)) as Hcol.
    destruct (NumPy.take s _) as [col|e]; cbn [bind mret result_ret]; [|exact Hcol].
    rewrite length_fmap in Hcol.
    destruct (length_c_ col X c ltac:(lia) Hrows) as [Hlen' Hrows'].
    split; [lia|exact Hrows'].
Qed.

(** Whatever the indices and the delay: a returned matrix has one row per
    index, at least one row, and [m] columns; the only exceptions are
    [IndexError] and [ValueError]. *)
Lemma build_embed_series_result (s : list float) (idxs : list Z) (m tau : Z) :
  1 ≤ m →
  match _build_embed_series s idxs m tau with
  | Ok X => length X = length idxs ∧ idxs ≠ [] ∧ Forall (λ row, len row = m) X
  | Raise e => e = IndexError ∨ e = ValueError
  end.
Proof.
  intros Hm. unfold _build_embed_series.
  pose proof (take_result s idxs) as H0.
  destruct (NumPy.take s idxs) as [X0|e]; cbn [mbind result_bind bind]; [|left; exact H0].
  pose proof (embed_loop_result s idxs tau (range 1 m) (Ok ((λ v, [v]) <$> X0)) 1) as Hloop.
  cbn beta iota in Hloop.
  specialize (Hloop ltac:(split; [rewrite length_fmap; exact H0|
                                  apply Forall_fmap, Forall_forall; intros; reflexivity])).
  destruct (foldl _ _ _) as [X|e]; cbn [mbind result_bind bind]; [|left; exact Hloop].
  destruct Hloop as [Hlen Hrows]. unfold NumPy.reshape_rows.
  destruct (Z.eqb_spec (len X) 0) as [_|Hne]; [right; reflexivity|].
  split; [exact Hlen|]. split.
  - intros ->. apply Hne. unfold len. rewrite Hlen. reflexivity.
  - eapply Forall_impl; [exact Hrows|]. intros row Hrow. cbn in Hrow.
    unfold len, range in *. rewrite length_seqZ in Hrow. lia.
Qed.

(** X12: for [m >= 1] the dictionary lookup cannot fail, whatever the
    series and the delays are (also delays below 1, where indices may
    count from the end), as long as the index array starts at [-len(x)] at
    the earliest and the integer arithmetic of both embeddings stays
    within 64 bits. The call either returns two sequences, each with one
    symbol of [0, m!) per index of
    [np.arange((m-1)*max(tau_x, tau_y), len(x))] and at least one symbol,
    or raises [IndexError] or [ValueError]; it never raises [KeyError]. *)
Theorem continuously_symbolize_outcomes (x y : list float) (m tau_x tau_y : Z) :
  let idxs := NumPy.arange ((m - 1) * Z.max tau_x tau_y) (len x) in
  1 ≤ m →
  - len x ≤ (m - 1) * Z.max tau_x tau_y →
  int64_safe idxs m tau_x → int64_safe idxs m tau_y →
  (∃ X Y,
     continuously_symbolize x y m tau_x tau_y = Ok (X, Y)
     ∧ 0 < len X
     ∧ len X = len idxs
     ∧ len Y = len X
     ∧ Forall (λ s, 0 ≤ s < factorial m) X
     ∧ Forall (λ s, 0 ≤ s < factorial m) Y)
  ∨ continuously_symbolize x y m tau_x tau_y = Raise IndexError
  ∨ continuously_symbolize x y m tau_x tau_y = Raise ValueError.
Proof.
  intros idxs Hm _ _ _. unfold continuously_symbolize. fold idxs.
  pose proof (build_embed_series_result x idxs m tau_x Hm) as HX.
  destruct (_build_embed_series x idxs m tau_x) as [X_embed|e];
    cbn [mbind result_bind bind]; [|destruct HX as [->| ->]; auto].
  pose proof (build_embed_series_result y idxs m tau_y Hm) as HY.
  destruct (_build_embed_series y idxs m tau_y) as [Y_embed|e];
    cbn [mbind result_bind bind]; [|destruct HY as [->| ->]; auto].
  destruct HX as (HlenX & Hne & HrowsX). destruct HY as (HlenY & _ & HrowsY).
  destruct (symbols_of_rows m X_embed HrowsX) as (X & HX & HlX & HrX).
  destruct (symbols_of_rows m Y_embed HrowsY) as (Y & HY & HlY & HrY).
  left. exists X, Y. rewrite HX. cbn [bind]. rewrite HY. cbn [bind mret result_ret].
  split; [reflexivity|]. unfold len.
  destruct idxs as [|idx idxs']; [congruence|]. cbn [length] in *.
  repeat split; try assumption; lia.
Qed.

(** X12 with a delay of 0 and a delay of -1. *)
Lemma continuously_symbolize_outcomes_witness :
  (∃ X Y,
     continuously_symbolize [1; 2; 3]%float [3; 1; 2]%float 2 0 (-1) = Ok (X, Y)
     ∧ 0 < len X
     ∧ len X = len (NumPy.arange ((2 - 1) * Z.max 0 (-1)) (len [1; 2; 3]%float))
     ∧ len Y = len X
     ∧ Forall (λ s, 0 ≤ s < factorial 2) X
     ∧ Forall (λ s, 0 ≤ s < factorial 2) Y)
  ∨ continuously_symbolize [1; 2; 3]%float [3; 1; 2]%float 2 0 (-1) = Raise IndexError
  ∨ continuously_symbolize [1; 2; 3]%float [3; 1; 2]%float 2 0 (-1) = Raise ValueError.
Proof.
  apply (continuously_symbolize_outcomes [1; 2; 3]%float [3; 1; 2]%float 2 0 (-1)).
  - lia.
  - vm_compute. congruence.
  - split.
    + intros i Hi. unfold fits_int64. lia.
    + intros idx i Hidx Hi. apply elem_of_arange in Hidx.
      change (len [1; 2; 3]%float) with 3 in Hidx. unfold fits_int64. lia.
  - split.
    + intros i Hi. unfold fits_int64. lia.
    + intros idx i Hidx Hi. apply elem_of_arange in Hidx.
      change (len [1; 2; 3]%float) with 3 in Hidx. unfold fits_int64. lia.
Defined.

Section argsort_order.
Variables v w : list float.
Hypothesis Hsame :
  ∀ (i j : nat) (a b a' b' : float),
    v !! i = Some a → v !! j = Some b → w !! i = Some a' → w !! j = Some b' →
    NumPy.less a b = NumPy.less a' b'.

(** An index paired with its value in [v], against the same index paired
    with its value in [w]. *)
Let paired (p q : Z * float) : Prop :=
  ∃ i : nat, p.1 = Z.of_nat i ∧ q.1 = Z.of_nat i
             ∧ v !! i = Some p.2 ∧ w !! i = Some q.2.

Lemma insert_index_paired (vi wi : Z * float) (acc acc' : list (Z * float)) :
  paired vi wi → Forall2 paired acc acc' →
  Forall2 paired (NumPy.insert_index vi acc) (NumPy.insert_index wi acc').
Proof.
  intros Hvi Hacc. induction Hacc as [|pk qk acc acc' Hpk Hacc IH].
  - cbn. constructor; [exact Hvi|constructor].
  - cbn [NumPy.insert_index].
    assert (NumPy.less vi.2 pk.2 = NumPy.less wi.2 qk.2) as ->.
    { destruct Hvi as (i & _ & _ & Hv & Hw). destruct Hpk as (j & _ & _ & Hv' & Hw').
      eapply Hsame; eassumption. }
    destruct (NumPy.less wi.2 qk.2).
    + constructor; [exact Hpk|exact IH].
    + constructor; [exact Hvi|]. constructor; [exact Hpk|exact Hacc].
Qed.

Lemma foldl_insert_index_paired (L L' acc acc' : list (Z * float)) :
  Forall2 paired L L' → Forall2 paired acc acc' →
  Forall2 paired (foldl (λ acc vi, NumPy.insert_index vi acc) acc L)
                 (foldl (λ acc vi, NumPy.insert_index vi acc) acc' L').
Proof.
  intros HL. revert acc acc'.
  induction HL as [|vi wi L L' Hvi _ IH]; intros acc acc' Hacc; [exact Hacc|].
  cbn [foldl]. apply IH, insert_index_paired; assumption.
Qed.

Lemma paired_fst (L L' : list (Z * float)) : Forall2 paired L L' → L.*1 = L'.*1.
Proof.
  induction 1 as [|p q L L' (i & Hp & Hq & _) _ IH]; [reflexivity|].
  cbn [fmap list_fmap]. rewrite IH. f_equal. congruence.
Qed.

(** Rows whose values compare alike are ordered alike. *)
Lemma argsort_same_order : length v = length w → NumPy.argsort v = NumPy.argsort w.
Proof.
  intros Hlen. unfold NumPy.argsort. rewrite !fmap_reverse. f_equal.
  apply paired_fst, foldl_insert_index_paired; [|constructor].
  apply Forall2_same_length_lookup_2.
  - rewrite !length_imap. exact Hlen.
  - intros i p q Hp Hq. rewrite list_lookup_imap in Hp, Hq.
    destruct (v !! i) as [a|] eqn:Hv; [|discriminate].
    destruct (w !! i) as [b|] eqn:Hw; [|discriminate].
    cbn in Hp, Hq. injection Hp as <-. injection Hq as <-.
    exists i. cbn. auto.
Qed.
End argsort_order.

Lemma symbol_at_same_order (s s' : list float) (tau m idx : Z) :
  1 ≤ m → same_order s s' →
  (∀ j, 0 ≤ j ≤ m - 1 → 0 ≤ idx - j * tau < len s) →
  symbol_at s tau m idx = symbol_at s' tau m idx.
Proof.
  intros Hm [Hlen Hord] Hb. apply symbol_at_eq_iff; [exact Hm|].
  apply argsort_same_order; [|rewrite !length_window; reflexivity].
  intros i j a b a' b' Ha Hb' Ha' Hb''.
  assert (i ≤ Z.to_nat (m - 1))%nat as Hi.
  { apply lookup_lt_Some in Ha. rewrite length_window in Ha. lia. }
  assert (j ≤ Z.to_nat (m - 1))%nat as Hj.
  { apply lookup_lt_Some in Hb'. rewrite length_window in Hb'. lia. }
  rewrite window_lookup in Ha, Hb', Ha', Hb'' by assumption.
  injection Ha as <-. injection Hb' as <-. injection Ha' as <-. injection Hb'' as <-.
  apply Hord.
  - pose proof (Hb (Z.of_nat (Z.to_nat (m - 1)) - Z.of_nat i) ltac:(lia)).
    unfold len in *. lia.
  - pose proof (Hb (Z.of_nat (Z.to_nat (m - 1)) - Z.of_nat j) ltac:(lia)).
    unfold len in *. lia.
Qed.

(** X13: the symbols depend on the samples only through their order.
    Let no two samples of [x] be equal, nor two of [y] (in numpy's sorting
    order). If [x'] orders its samples as [x] does and [y'] as [y] does
    (same lengths, and every comparison of two positions agrees), the call
    on [x'], [y'] returns what the call on [x], [y] returns (for [m],
    [tau_x], [tau_y] at least 1 and a [y] at least as long as [x]). *)
Theorem continuously_symbolize_order_only (x y x' y' : list float) (m tau_x tau_y : Z) :
  1 ≤ m → 1 ≤ tau_x → 1 ≤ tau_y → len x ≤ len y →
  no_ties x = true → no_ties y = true →
  same_order x x' → same_order y y' →
  continuously_symbolize x' y' m tau_x tau_y = continuously_symbolize x y m tau_x tau_y.
Proof.
  intros Hm Hx Hy Hlen _ _ Hxx Hyy.
  assert (len x' = len x) as Hlx by (destruct Hxx as [H _]; unfold len; lia).
  assert (len y' = len y) as Hly by (destruct Hyy as [H _]; unfold len; lia).
  destruct (Z.lt_ge_cases ((m - 1) * Z.max tau_x tau_y) (len x)) as [Hne|Hempty].
  - rewrite !continuously_symbolize_eval by lia. rewrite Hlx.
    f_equal. f_equal; apply list_fmap_ext; intros i idx Hidx; symmetry;
      apply list_elem_of_lookup_2, elem_of_arange in Hidx.
    + apply symbol_at_same_order; [exact Hm|exact Hxx|]. intros j Hj. nia.
    + apply symbol_at_same_order; [exact Hm|exact Hyy|]. intros j Hj. nia.
  - rewrite !continuously_symbolize_empty_range by lia. reflexivity.
Qed.

(** X13 on four samples and the same samples times ten. *)
Lemma continuously_symbolize_order_only_witness :
  continuously_symbolize [10; 30; 20; 50]%float [10; 30; 20; 50]%float 2 1 1
  = continuously_symbolize [1; 3; 2; 5]%float [1; 3; 2; 5]%float 2 1 1.
Proof.
  assert (same_order [1; 3; 2; 5]%float [10; 30; 20; 50]%float) as Hsame.
  { split; [reflexivity|]. intros i j Hi Hj. cbn [length] in Hi, Hj.
    do 4 (destruct i as [|i]; [do 4 (destruct j as [|j]; [reflexivity|]); lia|]). lia. }
  apply (continuously_symbolize_order_only [1; 3; 2; 5]%float [1; 3; 2; 5]%float
           [10; 30; 20; 50]%float [10; 30; 20; 50]%float 2 1 1);
    solve [lia | exact Hsame | vm_compute; congruence | vm_compute; reflexivity].
Defined.

(** ** Further properties of [_build_embed_series] *)

Lemma getitem_wrapped (s : list float) (k : Z) :
  - len s ≤ k < len s → getitem s k = Ok (wrapped s k).
Proof.
  intros Hk. unfold wrapped.
  assert (k `mod` len s = if k <? 0 then k + len s else k) as Hmod.
  { destruct (Z.ltb_spec k 0) as [Hneg|Hpos].
    - rewrite <- (Z_mod_plus_full k 1 (len s)). rewrite Z.mul_1_l.
      apply Z.mod_small. lia.
    - apply Z.mod_small. lia. }
  unfold getitem. rewrite Hmod.
  set (j := if k <? 0 then k + len s else k).
  assert (0 ≤ j < len s) as Hj by (subst j; destruct (Z.ltb_spec k 0); lia).
  destruct (Z.leb_spec 0 j) as [_|?]; [|lia].
  destruct (Z.ltb_spec j (len s)) as [_|?]; [|lia]. cbn [andb].
  destruct (s !! Z.to_nat j) as [a|] eqn:Hs.
  - rewrite (nth_lookup_Some _ _ 0%float _ Hs). reflexivity.
  - apply lookup_ge_None in Hs. unfold len in Hj. lia.
Qed.

Lemma getitem_Ok_inv {A : Type} (l : list A) (k : Z) (a : A) :
  getitem l k = Ok a → - len l ≤ k < len l.
Proof.
  unfold getitem. set (j := if k <? 0 then k + len l else k).
  assert (0 ≤ j < len l → - len l ≤ k < len l) as Hj
    by (subst j; destruct (Z.ltb_spec k 0); lia).
  destruct (Z.leb_spec 0 j); destruct (Z.ltb_spec j (len l)); cbn [andb];
    try discriminate.
  intros _. apply Hj. lia.
Qed.

Lemma take_wrapped (s : list float) (ks : list Z) :
  Forall (λ k, - len s ≤ k < len s) ks → NumPy.take s ks = Ok (wrapped s <$> ks).
Proof.
  intros H. unfold NumPy.take. apply mapM_Ok.
  eapply Forall_impl; [exact H|]. intros k Hk. apply getitem_wrapped, Hk.
Qed.

Lemma take_outside (s : list float) (ks : list Z) (k : Z) :
  k ∈ ks → ¬ (- len s ≤ k < len s) → NumPy.take s ks = Raise IndexError.
Proof.
  intros Hk Hout. pose proof (take_result s ks) as Hres.
  destruct (NumPy.take s ks) as [col|e] eqn:Htake; [|congruence].
  exfalso. apply mapM_Ok_inv in Htake.
  apply list_elem_of_lookup in Hk as [i Hi].
  destruct (Forall2_lookup_l _ _ _ _ _ Htake Hi) as (a & _ & Ha).
  apply Hout. eapply getitem_Ok_inv, Ha.
Qed.

Lemma embed_loop_wrapped (s : list float) (idxs : list Z) (tau : Z) (k : nat) :
  (∀ idx i, idx ∈ idxs → 0 ≤ i < Z.of_nat k + 1 → - len s ≤ idx - i * tau < len s) →
  foldl (λ (acc : result (list (list float))) (i : Z),
           X_embed ← acc;
           col ← NumPy.take s ((λ idx, idx - i * tau) <$> idxs);
           mret (NumPy.c_ col X_embed))
        (Ok ((λ v, [v]) <$> (wrapped s <$> idxs)))
        (range 1 (Z.of_nat k + 1))
  = Ok ((λ idx, window_by (wrapped s) tau idx k) <$> idxs).
Proof.
  unfold range. replace (Z.of_nat k + 1 - 1) with (Z.of_nat k) by lia.
  induction k as [|k IH]; intros Hb.
  - cbn. rewrite <- list_fmap_compose. reflexivity.
  - rewrite seqZ_S, foldl_app. rewrite IH.
    2:{ intros idx i Hidx Hi. apply Hb; [exact Hidx|lia]. }
    cbn [foldl]. cbn [mbind result_bind bind].
    rewrite take_wrapped.
    2:{ apply Forall_fmap, Forall_forall. intros idx Hidx. cbn.
        apply Hb; [exact Hidx|lia]. }
    cbn [mbind result_bind bind mret result_ret]. f_equal.
    unfold NumPy.c_. rewrite <- list_fmap_compose.
    rewrite zip_with_fmap_l, zip_with_fmap_r, zip_with_diag.
    apply list_fmap_ext. intros _ idx _. cbn [window_by compose].
    do 3 f_equal; lia.
Qed.

Lemma embed_loop_Ok_inv (s : list float) (idxs : list Z) (tau : Z) (l : list Z) :
  ∀ (acc : result (list (list float))) (X : list (list float)),
    foldl (λ (acc : result (list (list float))) (i : Z),
             X_embed ← acc;
             col ← NumPy.take s ((λ idx, idx - i * tau) <$> idxs);
             mret (NumPy.c_ col X_embed)) acc l = Ok X →
    ∀ i, i ∈ l → ∃ col, NumPy.take s ((λ idx, idx - i * tau) <$> idxs) = Ok col.
Proof.
  set (step := λ (acc : result (list (list float))) (i : Z),
                 X_embed ← acc;
                 col ← NumPy.take s ((λ idx, idx - i * tau) <$> idxs);
                 mret (NumPy.c_ col X_embed)).
  assert (∀ (l : list Z) e, foldl step (Raise e) l = Raise e) as Hraise.
  { intros l'. induction l' as [|i l' IH]; intros e; [reflexivity|]. exact (IH e). }
  induction l as [|j l IH]; intros acc X HX i Hi.
  - apply elem_of_nil in Hi as [].
  - cbn [foldl] in HX.
    destruct acc as [X0|e].
    + destruct (NumPy.take s ((λ idx, idx - j * tau) <$> idxs)) as [col|e] eqn:Hj.
      * apply elem_of_cons in Hi as [->|Hi]; [eauto|]. eapply IH; eassumption.
      * exfalso. assert (step (Ok X0) j = Raise e) as Hs.
        { unfold step. cbn [mbind result_bind bind]. rewrite Hj. reflexivity. }
        rewrite Hs, Hraise in HX. discriminate.
    + exfalso. assert (step (Raise e) j = Raise e) as Hs by reflexivity.
      rewrite Hs, Hraise in HX. discriminate.
Qed.

Lemma window_by_lookup (f : Z → float) (tau idx : Z) (k c : nat) :
  (c ≤ k)%nat →
  window_by f tau idx k !! c = Some (f (idx - (Z.of_nat k - Z.of_nat c) * tau)).
Proof.
  revert c. induction k as [|k IH]; intros c Hc.
  - assert (c = 0%nat) as -> by lia. cbn. do 2 f_equal; lia.
  - destruct c as [|c].
    + cbn [window_by lookup list_lookup]. do 2 f_equal; lia.
    + cbn [window_by]. rewrite lookup_cons_ne_0 by lia. cbn [pred].
      rewrite IH by lia. do 2 f_equal; lia.
Qed.

(** An access outside [-len(s), len(s))] ends the call in [IndexError]. *)
Lemma build_embed_series_outside (s : list float) (idxs : list Z) (m tau idx i : Z) :
  idx ∈ idxs → 0 ≤ i < m → ¬ (- len s ≤ idx - i * tau < len s) →
  _build_embed_series s idxs m tau = Raise IndexError.
Proof.
  intros Hidx Hi Hout. unfold _build_embed_series.
  pose proof (take_result s idxs) as H0.
  destruct (NumPy.take s idxs) as [X0|e] eqn:Htake;
    cbn [mbind result_bind bind]; [|congruence].
  pose proof (embed_loop_result s idxs tau (range 1 m) (Ok ((λ v, [v]) <$> X0)) 1)
    as Hloop.
  cbn beta iota in Hloop.
  specialize (Hloop ltac:(split; [rewrite length_fmap; exact H0|
                                  apply Forall_fmap, Forall_forall; intros; reflexivity])).
  destruct (foldl _ _ _) as [X|e] eqn:Hfold;
    cbn [mbind result_bind bind]; [|congruence].
  exfalso. destruct (decide (i = 0)) as [->|Hi0].
  - replace (idx - 0 * tau) with idx in Hout by lia.
    rewrite (take_outside s idxs idx Hidx Hout) in Htake. discriminate.
  - destruct (embed_loop_Ok_inv s idxs tau _ _ _ Hfold i) as [col Hcol].
    { unfold range. apply elem_of_seqZ. lia. }
    rewrite (take_outside s _ (idx - i * tau)) in Hcol; [discriminate| |exact Hout].
    apply (list_elem_of_fmap_2 (λ idx, idx - i * tau)), Hidx.
Qed.

(** X14: what [_build_embed_series] does for any index array and any
    delay, with [m >= 1] and integers that stay within 64 bits. It checks
    nothing beyond numpy's own indexing: without an index it raises
    [ValueError]; if some access [idx - i*tau] ([0 <= i < m]) lies outside
    [-len(x), len(x))] it raises [IndexError]; otherwise it returns one row
    per index, and the cell in column [c] is [x[idx - (m-1-c)*tau]] with a
    negative position counted from the end of [x], without any error. *)
Theorem build_embed_series_behaviour (s : list float) (idxs : list Z) (m tau : Z) :
  1 ≤ m → int64_safe idxs m tau →
  (idxs = [] → _build_embed_series s idxs m tau = Raise ValueError)
  ∧ (∀ idx i, idx ∈ idxs → 0 ≤ i < m → ¬ (- len s ≤ idx - i * tau < len s) →
       _build_embed_series s idxs m tau = Raise IndexError)
  ∧ (idxs ≠ [] →
     (∀ idx i, idx ∈ idxs → 0 ≤ i < m → - len s ≤ idx - i * tau < len s) →
     ∃ X, _build_embed_series s idxs m tau = Ok X
          ∧ length X = length idxs
          ∧ ∀ (r : nat) (idx c : Z), idxs !! r = Some idx → 0 ≤ c < m →
              X !! r ≫= (λ row, row !! Z.to_nat c)
              = Some (wrapped s (idx - (m - 1 - c) * tau))).
Proof.
  intros Hm _. split; [intros ->; apply build_embed_series_empty|]. split.
  - intros idx i. apply build_embed_series_outside.
  - intros Hne Hb.
    exists ((λ idx, window_by (wrapped s) tau idx (Z.to_nat (m - 1))) <$> idxs).
    split; [|split].
    + unfold _build_embed_series. rewrite take_wrapped.
      2:{ apply Forall_forall. intros idx Hidx. specialize (Hb idx 0 Hidx).
          replace (idx - 0 * tau) with idx in Hb by lia. apply Hb. lia. }
      cbn [mbind result_bind bind].
      replace m with (Z.of_nat (Z.to_nat (m - 1)) + 1) at 1 by lia.
      rewrite embed_loop_wrapped.
      2:{ replace (Z.of_nat (Z.to_nat (m - 1)) + 1) with m by lia. exact Hb. }
      destruct idxs as [|idx idxs]; [congruence|]. reflexivity.
    + apply length_fmap.
    + intros r idx c Hr Hc. rewrite list_lookup_fmap, Hr. cbn.
      rewrite window_by_lookup by lia.
      replace (Z.of_nat (Z.to_nat (m - 1)) - Z.of_nat (Z.to_nat c)) with (m - 1 - c) by lia.
      reflexivity.
Qed.

(** X14 on three samples: with [m = 2] and [tau = 1] the index 0 reads
    [x[-1]], the last sample, into column 0. *)
Lemma build_embed_series_behaviour_witness :
  ∃ X, _build_embed_series [1; 2; 3]%float [0; 1] 2 1 = Ok X
       ∧ length X = length [0; 1]
       ∧ ∀ (r : nat) (idx c : Z), [0; 1] !! r = Some idx → 0 ≤ c < 2 →
           X !! r ≫= (λ row, row !! Z.to_nat c)
           = Some (wrapped [1; 2; 3]%float (idx - (2 - 1 - c) * 1)).
Proof.
  assert (∀ idx, idx ∈ [0; 1] → idx = 0 ∨ idx = 1) as Hidxs.
  { intros idx Hidx. apply elem_of_cons in Hidx as [->|Hidx]; [auto|].
    apply list_elem_of_singleton in Hidx as ->. auto. }
  assert (int64_safe [0; 1] 2 1) as Hsafe.
  { split.
    - intros i Hi. unfold fits_int64. lia.
    - intros idx i Hidx Hi. unfold fits_int64.
      destruct (Hidxs idx Hidx) as [->| ->]; lia. }
  destruct (build_embed_series_behaviour [1; 2; 3]%float [0; 1] 2 1 ltac:(lia) Hsafe)
    as (_ & _ & Hwrap).
  apply Hwrap; [discriminate|].
  intros idx i Hidx Hi. assert (i = 0 ∨ i = 1) as Hcases by lia.
  destruct (Hidxs idx Hidx) as [->| ->];
    destruct Hcases as [->| ->]; unfold len; cbn; lia.
Defined.

(** ** The configuration is used as it is given *)

(** With a delay of 0 a window repeats one sample. *)
Lemma window_delay_0 (x : list float) (idx : Z) (k : nat) :
  window x 0 idx k = replicate (S k) (nth (Z.to_nat idx) x 0%float).
Proof.
  induction k as [|k IH]; [reflexivity|].
  cbn [window]. rewrite IH. cbn [replicate]. do 3 f_equal. lia.
Qed.

Lemma arange_in_bounds_delay_0 (x s : list float) (m : Z) :
  len x ≤ len s → in_bounds s (NumPy.arange 0 (len x)) m 0.
Proof.
  intros Hlen idx i Hidx Hi. apply elem_of_arange in Hidx. lia.
Qed.

(** The result of a call on any delays that keep every access in
    bounds. *)
Lemma continuously_symbolize_windows (x y : list float) (m tau_x tau_y : Z) :
  1 ≤ m →
  NumPy.arange ((m - 1) * Z.max tau_x tau_y) (len x) ≠ [] →
  in_bounds x (NumPy.arange ((m - 1) * Z.max tau_x tau_y) (len x)) m tau_x →
  in_bounds y (NumPy.arange ((m - 1) * Z.max tau_x tau_y) (len x)) m tau_y →
  continuously_symbolize x y m tau_x tau_y
  = Ok (symbol_at x tau_x m <$> NumPy.arange ((m - 1) * Z.max tau_x tau_y) (len x),
        symbol_at y tau_y m <$> NumPy.arange ((m - 1) * Z.max tau_x tau_y) (len x)).
Proof.
  intros Hm Hne Hbx Hby. unfold continuously_symbolize.
  set (idxs := NumPy.arange ((m - 1) * Z.max tau_x tau_y) (len x)) in *.
  rewrite (build_embed_series_window x idxs m tau_x) by assumption.
  cbn [mbind result_bind bind].
  rewrite (build_embed_series_window y idxs m tau_y) by assumption.
  cbn [mbind result_bind bind].
  rewrite !symbols_of_windows by exact Hm. reflexivity.
Qed.

Lemma continuously_symbolize_delay_0 (x y : list float) (m : Z) :
  1 ≤ m → 1 ≤ len x → len x ≤ len y →
  continuously_symbolize x y m 0 0
  = Ok (symbol_at x 0 m <$> NumPy.arange 0 (len x),
        symbol_at y 0 m <$> NumPy.arange 0 (len x)).
Proof.
  intros Hm Hx Hlen.
  rewrite continuously_symbolize_windows;
    replace ((m - 1) * Z.max 0 0) with 0 by lia;
    solve [reflexivity | exact Hm | apply arange_nonempty; lia
           | apply arange_in_bounds_delay_0; lia].
Qed.

(** C6, as amended: neither function checks its configuration, and
    neither clamps it; what is given is used as it is.
    - In [parse_peaks] a [distance] below 1 (given, or the default
      [2*tau_x]) is passed on and ends in the peak finder's [ValueError].
    - With [m = 1] [continuously_symbolize] never reads the delays: any
      [tau_x], [tau_y] give one symbol 0 per sample of [x].
    - With [m < 1] it never returns a result.
    - Delays of 0 are used as 0: for every [m >= 1] each row of the
      embedding repeats one sample [m] times, and the call returns
      [len(x)] symbols in each sequence (not [len(x) - (m-1)], as with
      delays of 1); for [m = 2] every symbol is 0.
    - Delays of -1 are used as -1: with [m = 2] the index array starts at
      -1 and the call ends in [IndexError].
    (The returning cases for [1 <= len(x) <= len(y)].) *)
Theorem configuration_not_validated :
  (∀ tau_x td_lags td_te_info ci_bg_ub thres distance prominence,
     default (2 * tau_x) distance < 1 →
     parse_peaks tau_x td_lags td_te_info ci_bg_ub thres distance prominence
     = Raise ValueError)
  ∧ (∀ x y tau_x tau_y,
       1 ≤ len x → len x ≤ len y →
       continuously_symbolize x y 1 tau_x tau_y
       = Ok (replicate (length x) 0, replicate (length x) 0))
  ∧ (∀ x y m tau_x tau_y,
       m < 1 → returns (continuously_symbolize x y m tau_x tau_y) = false)
  ∧ (∀ x y m,
       1 ≤ m → 1 ≤ len x → len x ≤ len y →
       _build_embed_series x (NumPy.arange 0 (len x)) m 0
       = Ok ((λ idx, replicate (Z.to_nat m) (nth (Z.to_nat idx) x 0%float))
               <$> NumPy.arange 0 (len x))
       ∧ ∃ X Y, continuously_symbolize x y m 0 0 = Ok (X, Y)
                ∧ len X = len x ∧ len Y = len x)
  ∧ (∀ x y,
       1 ≤ len x → len x ≤ len y →
       continuously_symbolize x y 2 0 0
       = Ok (replicate (length x) 0, replicate (length x) 0))
  ∧ (∀ x y, continuously_symbolize x y 2 (-1) (-1) = Raise IndexError).
Proof.
  split; [|split; [|split; [|split; [|split]]]].
  - intros tau_x td_lags td_te_info ci_bg_ub thres distance prominence Hd.
    unfold parse_peaks, SciPy.find_peaks.
    destruct (Z.ltb_spec (default (2 * tau_x) distance) 1) as [_|?]; [reflexivity|lia].
  - apply continuously_symbolize_m1.
  - apply continuously_symbolize_m0.
  - intros x y m Hm Hx Hlen. split.
    + rewrite build_embed_series_window;
        [|exact Hm|apply arange_nonempty; lia|apply arange_in_bounds_delay_0; lia].
      f_equal. apply list_fmap_ext. intros _ idx _.
      rewrite window_delay_0. f_equal. lia.
    + eexists _, _. split; [apply continuously_symbolize_delay_0; assumption|].
      unfold len. rewrite !length_fmap. unfold NumPy.arange. rewrite length_seqZ. lia.
  - intros x y Hx Hlen.
    rewrite continuously_symbolize_delay_0 by (assumption || lia).
    assert (∀ (s : list float) idx, symbol_at s 0 2 idx = 0) as Hzero.
    { intros s idx. apply symbol_at_sorted; [|lia].
      rewrite window_delay_0. change (Z.to_nat (2 - 1)) with 1%nat.
      cbn [replicate is_sorted sorted_after]. rewrite less_irrefl. reflexivity. }
    rewrite !(const_fmap (symbol_at _ 0 2) _ 0) by (intros; apply Hzero).
    unfold NumPy.arange, len. rewrite length_seqZ.
    replace (Z.to_nat (Z.of_nat (length x) - 0)) with (length x) by lia.
    reflexivity.
  - intros x y. unfold continuously_symbolize.
    replace ((2 - 1) * Z.max (-1) (-1)) with (-1) by lia.
    rewrite (build_embed_series_outside x _ 2 (-1)
               (if decide (len x = 0) then -1 else len x - 1)
               (if decide (len x = 0) then 0 else 1)).
    + reflexivity.
    + apply elem_of_arange. destruct (decide (len x = 0)); unfold len in *; lia.
    + destruct (decide (len x = 0)); lia.
    + destruct (decide (len x = 0)); unfold len in *; lia.
Qed.

(** C6 at work: a default distance of 0; delays of 0 and -3 with m = 1;
    m = 0; delays of 0 with m = 3 and with m = 2. *)
Lemma configuration_not_validated_witness :
  parse_peaks 0 [0; 1; 2] [(0, 0); (1, 0); (0, 0)]%float 0%float None None None
  = Raise ValueError
  ∧ continuously_symbolize [1; 2; 3]%float [1; 2; 3]%float 1 0 (-3)
    = Ok (replicate (length [1; 2; 3]%float) 0, replicate (length [1; 2; 3]%float) 0)
  ∧ returns (continuously_symbolize [1; 2; 3]%float [1; 2; 3]%float 0 1 1) = false
  ∧ (∃ X Y, continuously_symbolize [1; 2; 3]%float [1; 2; 3]%float 3 0 0 = Ok (X, Y)
            ∧ len X = len [1; 2; 3]%float ∧ len Y = len [1; 2; 3]%float)
  ∧ continuously_symbolize [3; 2; 1]%float [1; 2; 3]%float 2 0 0
    = Ok (replicate (length [3; 2; 1]%float) 0, replicate (length [3; 2; 1]%float) 0).
Proof.
  destruct configuration_not_validated as (Hdistance & Htau & Hm & Hzero & Hpairs & _).
  split; [apply Hdistance; vm_compute; reflexivity|].
  split; [apply Htau; vm_compute; congruence|].
  split; [apply Hm; vm_compute; reflexivity|].
  split; [|apply Hpairs; vm_compute; congruence].
  apply (Hzero [1; 2; 3]%float [1; 2; 3]%float 3); vm_compute; congruence.
Defined.

(** C6 as stated fails: calls with delays below 1 are not rejected, and
    the delays are not clamped to 1. With [tau_x = tau_y = 0] and [m = 2]
    the falling series [3, 2, 1] gets three symbols 0 (delays of 1 give the
    two symbols 1 of its falling pairs); with [m = 1] delays of 0 and -3
    return symbols as well. *)
Lemma configuration_not_validated_counterexample :
  0 < 1
  ∧ continuously_symbolize [3; 2; 1]%float [3; 2; 1]%float 2 0 0
    = Ok ([0; 0; 0], [0; 0; 0])
  ∧ continuously_symbolize [3; 2; 1]%float [3; 2; 1]%float 2 1 1
    = Ok ([1; 1], [1; 1])
  ∧ -3 < 1
  ∧ continuously_symbolize [1; 2; 3]%float [1; 2; 3]%float 1 0 (-3)
    = Ok ([0; 0; 0], [0; 0; 0]).
Proof.
  split; [lia|]. split; [vm_compute; reflexivity|]. split; [vm_compute; reflexivity|].
  split; [lia|]. vm_compute. reflexivity.
Qed.
